(** * Slack and criticality evaluation (vpr/src/timing/slack_evaluation.cpp)

    A shallow embedding of [SetupSlackCrit] and [HoldSlackCrit]: the per-pin
    slack and criticality arrays, the modified-pin lists, the per-domain-pair
    aggregates of the setup evaluator and the global rescaling of the hold
    evaluator, together with the properties the design document states
    about them. *)

From Stdlib Require Import ZArith Bool List Lia.
From Stdlib Require Import Floats.SpecFloat.
From stdpp Require Import base option list gmap fin_maps.

Set Default Proof Using "Type".

(** ** IEEE-754 numbers

    The C++ [float] is binary32 and the literals [1.] and [0.] are binary64;
    both are [spec_float] values, operated on at the respective precision. *)
Module F32.

Definition float : Type := spec_float.

Definition prec : Z := 24.
Definition emax : Z := 128.
Definition dprec : Z := 53.
Definition demax : Z := 1024.

Definition infinity : float := S754_infinity false.
Definition neg_infinity : float := S754_infinity true.
Definition NAN : float := S754_nan.
Definition zero : float := S754_zero false.
Definition one : float := SFone prec emax.
Definition d_one : spec_float := SFone dprec demax.

(** [float] arithmetic, round to nearest even. *)
Definition fadd (x y : float) : float := SFadd prec emax x y.
Definition fsub (x y : float) : float := SFsub prec emax x y.
Definition fmul (x y : float) : float := SFmul prec emax x y.
Definition fopp (x : float) : float := SFopp x.
Definition fabs (x : float) : float := SFabs x.

(** Promotion of a [float] operand to [double] (exact) and the conversion
    of a [double] result stored into a [float] variable (rounding). *)
Definition to_double (x : float) : spec_float :=
  match x with
  | S754_finite s m e => binary_round dprec demax s m e
  | _ => x
  end.

Definition to_float (x : spec_float) : float :=
  match x with
  | S754_finite s m e => binary_round prec emax s m e
  | _ => x
  end.

Definition dsub (x y : spec_float) : spec_float := SFsub dprec demax x y.
Definition ddiv (x y : spec_float) : spec_float := SFdiv dprec demax x y.

(** Comparison operators [<], [<=], [==] of the language. *)
Definition flt (x y : float) : bool := SFltb x y.
Definition fle (x y : float) : bool := SFleb x y.
Definition feq (x y : float) : bool := SFeqb x y.

Definition isnan (x : float) : bool :=
  match x with S754_nan => true | _ => false end.

Definition isfinite (x : float) : bool :=
  match x with S754_zero _ | S754_finite _ _ _ => true | _ => false end.

(** [std::min(a, b)] is [(b < a) ? b : a]; [std::max(a, b)] is
    [(a < b) ? b : a]. *)
Definition std_min (a b : float) : float := if flt b a then b else a.
Definition std_max (a b : float) : float := if flt a b then b else a.

(** A [float] built from an integer, for concrete runs. *)
Definition of_Z (z : Z) : float := binary_normalize prec emax z 0 false.

End F32.

Import F32.

(** ** Identifiers, tags and the external collaborators

    Node, pin and clock-domain identifiers are strong ids: an index or the
    distinguished invalid id, which is what the conversion to [bool] in
    [VTR_ASSERT(node)] and [VTR_ASSERT_SAFE(pin)] tests. *)

Definition StrongId : Type := option nat.
Abbreviation INVALID := (@None nat).

Definition NodeId : Type := StrongId.
Definition AtomPinId : Type := StrongId.
Definition DomainId : Type := StrongId.
Abbreviation DomainPair := (DomainId * DomainId)%type.

Definition id_valid (i : StrongId) : bool :=
  match i with Some _ => true | None => false end.

Inductive TagType : Type :=
  | CLOCK_LAUNCH | CLOCK_CAPTURE | DATA_ARRIVAL | DATA_REQUIRED | SLACK.

(** A timing tag: [tag.time().value()] and its two clock domains. *)
Record TimingTag : Type := mkTag {
  launch_clock_domain : DomainId;
  capture_clock_domain : DomainId;
  time : float
}.

Record TimingGraph : Type := {
  nodes : list NodeId;
  logical_outputs : list NodeId
}.

Record SetupTimingAnalyzer : Type := {
  setup_tags : NodeId → TagType → list TimingTag;
  setup_slacks : NodeId → list TimingTag;
  modified_nodes : list NodeId
}.

Record HoldTimingAnalyzer : Type := {
  hold_slacks : NodeId → list TimingTag
}.

Record AtomNetlist : Type := {
  pins : list AtomPinId
}.

Record AtomLookup : Type := {
  tnode_atom_pin : NodeId → AtomPinId;
  atom_pin_tnode : AtomPinId → NodeId
}.

(** ** Outcomes

    A call either returns, or stops in a failed assertion, or indexes a
    pin array outside its bounds (undefined behaviour in the source, kept
    apart from normal returns here). *)

Inductive outcome (A : Type) : Type :=
  | Ok (a : A)
  | AssertionFailure
  | OutOfBounds.
Arguments Ok {A} a.
Arguments AssertionFailure {A}.
Arguments OutOfBounds {A}.

Definition bind {A B} (m : outcome A) (k : A → outcome B) : outcome B :=
  match m with
  | Ok a => k a
  | AssertionFailure => AssertionFailure
  | OutOfBounds => OutOfBounds
  end.

Notation "'do' x <- m ; k" := (bind m (fun x => k))
  (at level 10, x name, m at level 100, k at level 200).
Notation "'do_' m ; k" := (bind m (fun _ => k))
  (at level 10, m at level 100, k at level 200).

(** [for (x : xs) body(x)] over a state threaded through the iterations. *)
Fixpoint for_each {A S} (xs : list A) (body : A → S → outcome S) (s : S)
  : outcome S :=
  match xs with
  | [] => Ok s
  | x :: xs' => do s' <- body x s; for_each xs' body s'
  end.

(** An enabled assertion stops the call when its condition is false; a
    compiled-out one does nothing. *)
Definition check (enabled cond : bool) : outcome unit :=
  if enabled && negb cond then AssertionFailure else Ok tt.

(** [v[pin] = x] on a [vtr::vector<AtomPinId, float>]. *)
Definition vec_set (v : list float) (pin : AtomPinId) (x : float)
  : outcome (list float) :=
  match pin with
  | Some i => if decide (i < length v) then Ok (<[i := x]> v) else OutOfBounds
  | None => OutOfBounds
  end.

(** [v[pin]] read. *)
Definition vec_get (v : list float) (pin : AtomPinId) : outcome float :=
  match pin with
  | Some i => match v !! i with Some x => Ok x | None => OutOfBounds end
  | None => OutOfBounds
  end.

(** [template<typename T> void nodes_to_pins(T nodes, const AtomLookup&,
    std::vector<AtomPinId>& pins)]: one [push_back] per node. *)
Definition nodes_to_pins (nodes : list NodeId) (atom_lookup : AtomLookup)
  (pins : list AtomPinId) : list AtomPinId :=
  fold_left (fun pins node => pins ++ [tnode_atom_pin atom_lookup node])
            nodes pins.

(** Modelled from the spec: [find_minimum_tag] is declared in timing_util.h
    and defined outside this file; the design document gives the slack of a
    node as the minimum time value among its tags, none when the collection
    is empty. It is the [std::min_element] scan with [<] on the tag times:
    the first tag is the candidate and a later tag replaces it when its
    time is strictly smaller. *)
Definition find_minimum_tag (tags : list TimingTag) : option TimingTag :=
  match tags with
  | [] => None
  | t :: rest =>
      Some (fold_left (fun best t' => if flt (time t') (time best)
                                      then t' else best) rest t)
  end.

(** [operator==] of [std::map<DomainPair, float>]. Both maps keep their
    entries sorted by key, so equal sizes and entries equal position by
    position amount to: equal sizes, and every entry of the left map has an
    entry of the right map under the same key whose time is [==] to it. *)
Definition entry_in (m2 : gmap DomainPair float) (kv : DomainPair * float)
  : bool :=
  match m2 !! kv.1 with
  | Some v' => feq kv.2 v'
  | None => false
  end.

Definition map_eqb (m1 m2 : gmap DomainPair float) : bool :=
  bool_decide (size m1 = size m2) && forallb (entry_in m2) (map_to_list m1).

(** ** SetupSlackCrit *)
Module SetupSlackCrit.

Record t : Type := mk {
  pin_slacks_ : list float;
  pin_criticalities_ : list float;
  pins_with_modified_slacks_ : list AtomPinId;
  pins_with_modified_criticalities_ : list AtomPinId;
  prev_max_req_ : gmap DomainPair float;
  prev_worst_slack_ : gmap DomainPair float
}.

Section Methods.
(** Build configuration: vtr_assert.h is not part of this file, so
    whether [VTR_ASSERT_SAFE] is compiled in is left open. *)
Variable VTR_ASSERT_SAFE_enabled : bool.
(** The two references the object is constructed with. *)
Variable netlist_ : AtomNetlist.
Variable netlist_lookup_ : AtomLookup.
(** [calc_relaxed_criticality] of timing_util.h, defined outside this
    file: any function of the two aggregates and the tags of a node,
    which may stop in an assertion of its own. *)
Variable calc_relaxed_criticality :
  gmap DomainPair float → gmap DomainPair float → list TimingTag →
  outcome float.

Definition VTR_ASSERT_SAFE : bool → outcome unit :=
  check VTR_ASSERT_SAFE_enabled.

(** The constructor: both arrays have one [NAN] entry per pin. *)
Definition create : t :=
  {| pin_slacks_ := replicate (length (pins netlist_)) NAN;
     pin_criticalities_ := replicate (length (pins netlist_)) NAN;
     pins_with_modified_slacks_ := [];
     pins_with_modified_criticalities_ := [];
     prev_max_req_ := ∅;
     prev_worst_slack_ := ∅ |}.

Definition setup_pin_slack (st : t) (pin : AtomPinId) : outcome float :=
  vec_get (pin_slacks_ st) pin.

Definition setup_pin_criticality (st : t) (pin : AtomPinId)
  : outcome float :=
  vec_get (pin_criticalities_ st) pin.

Definition pins_with_modified_slack (st : t) : list AtomPinId :=
  pins_with_modified_slacks_ st.

Definition pins_with_modified_criticality (st : t) : list AtomPinId :=
  pins_with_modified_criticalities_ st.

Definition update_pin_slack (node : NodeId)
  (analyzer : SetupTimingAnalyzer) (pin_slacks : list float)
  : outcome (list float) :=
  let pin := tnode_atom_pin netlist_lookup_ node in
  do_ VTR_ASSERT_SAFE (id_valid pin);
  let tags := setup_slacks analyzer node in
  match find_minimum_tag tags with
  | Some min_tag => vec_set pin_slacks pin (time min_tag)
  | None => vec_set pin_slacks pin infinity
  end.

Definition update_slacks (analyzer : SetupTimingAnalyzer) (st : t)
  : outcome t :=
  let nodes := modified_nodes analyzer in
  do slacks <- for_each nodes (fun node => update_pin_slack node analyzer)
                        (pin_slacks_ st);
  Ok {| pin_slacks_ := slacks;
        pin_criticalities_ := pin_criticalities_ st;
        pins_with_modified_slacks_ := nodes_to_pins nodes netlist_lookup_ [];
        pins_with_modified_criticalities_ :=
          pins_with_modified_criticalities_ st;
        prev_max_req_ := prev_max_req_ st;
        prev_worst_slack_ := prev_worst_slack_ st |}.

(** Body of the loop over the required-time tags of a logical output. *)
Definition record_max_req (max_req : gmap DomainPair float)
  (tag : TimingTag) : gmap DomainPair float :=
  let domain_pair := (launch_clock_domain tag, capture_clock_domain tag) in
  let req := time tag in
  match max_req !! domain_pair with
  | Some cur => if flt cur req then <[domain_pair := req]> max_req
                else max_req
  | None => <[domain_pair := req]> max_req
  end.

(** Body of the loop over the slack tags of a logical output. *)
Definition record_worst_slack (tag : TimingTag)
  (worst_slack : gmap DomainPair float) : outcome (gmap DomainPair float) :=
  let domain_pair := (launch_clock_domain tag, capture_clock_domain tag) in
  let slack := time tag in
  do_ VTR_ASSERT_SAFE (negb (isnan slack));
  do_ VTR_ASSERT_SAFE (isfinite slack);
  match worst_slack !! domain_pair with
  | Some cur => if flt slack cur
                then Ok (<[domain_pair := slack]> worst_slack)
                else Ok worst_slack
  | None => Ok (<[domain_pair := slack]> worst_slack)
  end.

(** The first loop of [update_criticalities]: the maximum required time
    and the worst slack per domain pair, over the logical outputs. *)
Definition aggregate_node (analyzer : SetupTimingAnalyzer) (node : NodeId)
  (acc : gmap DomainPair float * gmap DomainPair float)
  : outcome (gmap DomainPair float * gmap DomainPair float) :=
  let max_req :=
    fold_left record_max_req (setup_tags analyzer node DATA_REQUIRED) acc.1 in
  do worst_slack <-
    for_each (setup_slacks analyzer node) record_worst_slack acc.2;
  Ok (max_req, worst_slack).

Definition aggregate (timing_graph : TimingGraph)
  (analyzer : SetupTimingAnalyzer)
  : outcome (gmap DomainPair float * gmap DomainPair float) :=
  for_each (logical_outputs timing_graph) (aggregate_node analyzer) (∅, ∅).

Definition calc_pin_criticality (node : NodeId)
  (analyzer : SetupTimingAnalyzer)
  (max_req worst_slack : gmap DomainPair float) : outcome float :=
  calc_relaxed_criticality max_req worst_slack (setup_slacks analyzer node).

(** Body of both criticality loops. *)
Definition update_pin_criticality (analyzer : SetupTimingAnalyzer)
  (max_req worst_slack : gmap DomainPair float) (node : NodeId)
  (pin_criticalities : list float) : outcome (list float) :=
  let pin := tnode_atom_pin netlist_lookup_ node in
  do_ VTR_ASSERT_SAFE (id_valid pin);
  do crit <- calc_pin_criticality node analyzer max_req worst_slack;
  vec_set pin_criticalities pin crit.

Definition update_criticalities (timing_graph : TimingGraph)
  (analyzer : SetupTimingAnalyzer) (st : t) : outcome t :=
  do agg <- aggregate timing_graph analyzer;
  let max_req := agg.1 in
  let worst_slack := agg.2 in
  if map_eqb max_req (prev_max_req_ st)
     && map_eqb worst_slack (prev_worst_slack_ st)
  then
    let nodes := modified_nodes analyzer in
    do crits <- for_each nodes
                  (update_pin_criticality analyzer max_req worst_slack)
                  (pin_criticalities_ st);
    Ok {| pin_slacks_ := pin_slacks_ st;
          pin_criticalities_ := crits;
          pins_with_modified_slacks_ := pins_with_modified_slacks_ st;
          pins_with_modified_criticalities_ :=
            nodes_to_pins nodes netlist_lookup_ [];
          prev_max_req_ := max_req;
          prev_worst_slack_ := worst_slack |}
  else
    let nodes := nodes timing_graph in
    do crits <- for_each nodes
                  (update_pin_criticality analyzer max_req worst_slack)
                  (pin_criticalities_ st);
    Ok {| pin_slacks_ := pin_slacks_ st;
          pin_criticalities_ := crits;
          pins_with_modified_slacks_ := pins_with_modified_slacks_ st;
          pins_with_modified_criticalities_ :=
            nodes_to_pins nodes netlist_lookup_ [];
          prev_max_req_ := max_req;
          prev_worst_slack_ := worst_slack |}.

(** The sequential build ([VPR_USE_TBB] undefined). *)
Definition update_slacks_and_criticalities (timing_graph : TimingGraph)
  (analyzer : SetupTimingAnalyzer) (st : t) : outcome t :=
  do st1 <- update_slacks analyzer st;
  update_criticalities timing_graph analyzer st1.

End Methods.
End SetupSlackCrit.

(** ** HoldSlackCrit *)
Module HoldSlackCrit.

Record t : Type := mk {
  pin_slacks_ : list float;
  pin_criticalities_ : list float
}.

Section Methods.
(** Whether [VTR_ASSERT] is compiled in (vtr_assert.h is not part of
    this file). *)
Variable VTR_ASSERT_enabled : bool.
Variable netlist_ : AtomNetlist.
Variable netlist_lookup_ : AtomLookup.

Definition VTR_ASSERT : bool → outcome unit := check VTR_ASSERT_enabled.

Definition create : t :=
  {| pin_slacks_ := replicate (length (pins netlist_)) NAN;
     pin_criticalities_ := replicate (length (pins netlist_)) NAN |}.

Definition hold_pin_slack (st : t) (pin : AtomPinId) : outcome float :=
  vec_get (pin_slacks_ st) pin.

Definition hold_pin_criticality (st : t) (pin : AtomPinId)
  : outcome float :=
  vec_get (pin_criticalities_ st) pin.

Definition update_pin_slack (analyzer : HoldTimingAnalyzer)
  (pin : AtomPinId) (pin_slacks : list float) : outcome (list float) :=
  let node := atom_pin_tnode netlist_lookup_ pin in
  do_ VTR_ASSERT (id_valid node);
  let tags := hold_slacks analyzer node in
  match find_minimum_tag tags with
  | Some min_tag => vec_set pin_slacks pin (time min_tag)
  | None => vec_set pin_slacks pin infinity
  end.

Definition update_slacks (analyzer : HoldTimingAnalyzer) (st : t)
  : outcome t :=
  do slacks <- for_each (pins netlist_) (update_pin_slack analyzer)
                        (pin_slacks_ st);
  Ok {| pin_slacks_ := slacks;
        pin_criticalities_ := pin_criticalities_ st |}.

(** The scan of every hold-slack tag of every node: the running
    [(worst_slack, best_slack)]. *)
Definition scan_tag (acc : float * float) (tag : TimingTag)
  : float * float :=
  let slack := time tag in
  (std_min acc.1 slack, std_max acc.2 slack).

Definition scan_slacks (timing_graph : TimingGraph)
  (analyzer : HoldTimingAnalyzer) : float * float :=
  fold_left (fun acc node => fold_left scan_tag (hold_slacks analyzer node) acc)
            (nodes timing_graph) (infinity, neg_infinity).

(** [float tag_criticality = 1. - scale * (slack + shift)]: the product
    and the sum are [float] operations, the subtraction from the
    [double] literal is a [double] one, rounded when stored. *)
Definition tag_criticality (scale shift slack : float) : float :=
  to_float (dsub d_one (to_double (fmul scale (fadd slack shift)))).

(** The running maximum over the tags of a node, from [0.]. *)
Definition max_tag_criticality (scale shift : float)
  (tags : list TimingTag) : float :=
  fold_left (fun criticality tag =>
               std_max criticality (tag_criticality scale shift (time tag)))
            tags zero.

(** The two final comparisons are against the [double] literals [0.]
    and [1.]; promoting the [float] is exact and both literals are
    [float] values, so they are taken at [float]. *)
Definition calc_pin_criticality (pin : AtomPinId)
  (analyzer : HoldTimingAnalyzer) (scale shift : float) : outcome float :=
  let node := atom_pin_tnode netlist_lookup_ pin in
  do_ VTR_ASSERT (id_valid node);
  let criticality :=
    max_tag_criticality scale shift (hold_slacks analyzer node) in
  do_ VTR_ASSERT (fle zero criticality);
  do_ VTR_ASSERT (fle criticality one);
  Ok criticality.

(** [float scale = 1. / std::abs(best_slack - worst_slack)]: a [float]
    subtraction and absolute value, a [double] division, rounded when
    stored. *)
Definition calc_scale (worst_slack best_slack : float) : float :=
  to_float (ddiv d_one (to_double (fabs (fsub best_slack worst_slack)))).

Definition update_pin_criticality (analyzer : HoldTimingAnalyzer)
  (scale shift : float) (pin : AtomPinId) (pin_criticalities : list float)
  : outcome (list float) :=
  do crit <- calc_pin_criticality pin analyzer scale shift;
  vec_set pin_criticalities pin crit.

Definition update_criticalities (timing_graph : TimingGraph)
  (analyzer : HoldTimingAnalyzer) (st : t) : outcome t :=
  let scanned := scan_slacks timing_graph analyzer in
  let worst_slack := scanned.1 in
  let best_slack := scanned.2 in
  let scale := calc_scale worst_slack best_slack in
  let shift := fopp worst_slack in
  do crits <- for_each (pins netlist_)
                (update_pin_criticality analyzer scale shift)
                (pin_criticalities_ st);
  Ok {| pin_slacks_ := pin_slacks_ st;
        pin_criticalities_ := crits |}.

(** The sequential build ([VPR_USE_TBB] undefined). *)
Definition update_slacks_and_criticalities (timing_graph : TimingGraph)
  (analyzer : HoldTimingAnalyzer) (st : t) : outcome t :=
  do st1 <- update_slacks analyzer st;
  update_criticalities timing_graph analyzer st1.

End Methods.
End HoldSlackCrit.

(** ** A small design for concrete runs *)
Module Example.

Definition n0 : NodeId := Some 0.
Definition n1 : NodeId := Some 1.
Definition p0 : AtomPinId := Some 0.
Definition p1 : AtomPinId := Some 1.

(** Node [i] and pin [i] correspond, for [i < 2]. *)
Definition lookup2 : AtomLookup :=
  {| tnode_atom_pin := fun n =>
       match n with Some i => if decide (i < 2) then Some i else None
                  | None => None end;
     atom_pin_tnode := fun p =>
       match p with Some i => if decide (i < 2) then Some i else None
                  | None => None end |}.

Definition netlist2 : AtomNetlist := {| pins := [p0; p1] |}.
Definition graph2 : TimingGraph :=
  {| nodes := [n0; n1]; logical_outputs := [n0; n1] |}.

Definition clk : DomainId := Some 0.
Definition tag (x : float) : TimingTag := mkTag clk clk x.

(** Hold slacks [-2.0] at node 0 and [3.0] at node 1. *)
Definition hold2 : HoldTimingAnalyzer :=
  {| hold_slacks := fun n =>
       match n with
       | Some 0 => [tag (of_Z (-2))]
       | Some 1 => [tag (of_Z 3)]
       | _ => []
       end |}.

(** Setup tags: required times [5.0] and [4.0], slacks [{1.5, 0.75}] at
    node 0 and [2.0] at node 1, one clock domain; node 0 was modified. *)
Definition setup2 : SetupTimingAnalyzer :=
  {| setup_tags := fun n ty =>
       match n, ty with
       | Some 0, DATA_REQUIRED => [tag (of_Z 5)]
       | Some 1, DATA_REQUIRED => [tag (of_Z 4)]
       | _, _ => []
       end;
     setup_slacks := fun n =>
       match n with
       | Some 0 => [tag (binary_normalize prec emax 3 (-1) false);
                    tag (binary_normalize prec emax 3 (-2) false)]
       | Some 1 => [tag (of_Z 2)]
       | _ => []
       end;
     modified_nodes := [n0] |}.

(** A stand-in for [calc_relaxed_criticality] in concrete runs: it
    returns [0.] whatever the tags. *)
Definition calc_zero (max_req worst_slack : gmap DomainPair float)
  (tags : list TimingTag) : outcome float := Ok zero.

(** An analyzer of a design without timing tags that reports node 0 as
    modified. *)
Definition untimed_setup : SetupTimingAnalyzer :=
  {| setup_tags := fun _ _ => [];
     setup_slacks := fun _ => [];
     modified_nodes := [n0] |}.

(** An analyzer that reports a node without a pin as modified. *)
Definition n5 : NodeId := Some 5.
Definition unmapped_setup : SetupTimingAnalyzer :=
  {| setup_tags := fun _ _ => [];
     setup_slacks := fun _ => [];
     modified_nodes := [n5] |}.

(** A netlist with a third pin, which has no timing node in [lookup2]. *)
Definition p2 : AtomPinId := Some 2.
Definition netlist3 : AtomNetlist := {| pins := [p0; p1; p2] |}.

(** Both hold-slack tags at node 0, none at node 1. *)
Definition hold_node0 : HoldTimingAnalyzer :=
  {| hold_slacks := fun n =>
       match n with
       | Some 0 => [tag (of_Z (-2)); tag (of_Z 3)]
       | _ => []
       end |}.

End Example.
(** ** Vocabulary of the statements *)

(** The domain pair a tag is filed under. *)
Definition domain_pair_of (tag : TimingTag) : DomainPair :=
  (launch_clock_domain tag, capture_clock_domain tag).

(** [v] is the time of one of the tags and no tag has a smaller time. *)
Definition least_time (tags : list TimingTag) (v : float) : Prop :=
  (∃ t, t ∈ tags ∧ time t = v) ∧ ∀ t, t ∈ tags → flt (time t) v = false.

(** [v] is the time of one of the tags and no tag has a greater time. *)
Definition greatest_time (tags : list TimingTag) (v : float) : Prop :=
  (∃ t, t ∈ tags ∧ time t = v) ∧ ∀ t, t ∈ tags → flt v (time t) = false.

(** The tags of a list that are filed under a domain pair. *)
Definition tags_of_pair (dp : DomainPair) (tags : list TimingTag)
  : list TimingTag :=
  filter (fun t => domain_pair_of t = dp) tags.

(** Value equality of two optional map entries, times by [==]. *)
Definition entry_equal (a b : option float) : Prop :=
  match a, b with
  | Some x, Some y => feq x y = true
  | None, None => True
  | _, _ => False
  end.

(** Two aggregates with the same keys and [==] times under every key. *)
Definition maps_equal (m1 m2 : gmap DomainPair float) : Prop :=
  ∀ dp, entry_equal (m1 !! dp) (m2 !! dp).

Definition in_unit_interval (c : float) : Prop :=
  fle zero c = true ∧ fle c one = true.

Definition lookup_injective_on (lk : AtomLookup) (ns : list NodeId) : Prop :=
  ∀ n m, n ∈ ns → m ∈ ns → tnode_atom_pin lk n = tnode_atom_pin lk m → n = m.

(** The pin projection of a node set as the design document words it:
    the pins of the nodes, unmapped nodes left out, without duplicates. *)
Definition pin_projection (lk : AtomLookup) (ns : list NodeId)
  : list AtomPinId :=
  remove_dups (filter (fun p => is_Some p) (tnode_atom_pin lk <$> ns)).

(** What a slack update stores for a node with the given slack tags:
    [+infinity] without tags, otherwise a least tag time. *)
Definition slack_of_tags (tags : list TimingTag) (s : float) : Prop :=
  (tags = [] ∧ s = infinity) ∨ (tags ≠ [] ∧ least_time tags s).

(** The value of the minimum tag, [+infinity] when there is none. *)
Definition min_time_or_infinity (tags : list TimingTag) : float :=
  match find_minimum_tag tags with
  | Some min_tag => time min_tag
  | None => infinity
  end.

(** The value the setup slack update computes for a node before storing
    it, and likewise for criticality and for the hold slack of a pin. *)
Definition setup_slack_value (safe : bool) (lk : AtomLookup)
  (an : SetupTimingAnalyzer) (node : NodeId) : outcome float :=
  do_ check safe (id_valid (tnode_atom_pin lk node));
  Ok (min_time_or_infinity (setup_slacks an node)).

Definition setup_crit_value (safe : bool) (lk : AtomLookup)
  (calc : gmap DomainPair float → gmap DomainPair float → list TimingTag →
          outcome float)
  (an : SetupTimingAnalyzer) (mr ws : gmap DomainPair float) (node : NodeId)
  : outcome float :=
  do_ check safe (id_valid (tnode_atom_pin lk node));
  SetupSlackCrit.calc_pin_criticality calc node an mr ws.

Definition hold_slack_value (on : bool) (lk : AtomLookup)
  (an : HoldTimingAnalyzer) (pin : AtomPinId) : outcome float :=
  do_ check on (id_valid (atom_pin_tnode lk pin));
  Ok (min_time_or_infinity (hold_slacks an (atom_pin_tnode lk pin))).

(** The tags the first loop of the setup criticality update visits. *)
Definition required_tags (tg : TimingGraph) (an : SetupTimingAnalyzer)
  : list TimingTag :=
  flat_map (fun n => setup_tags an n DATA_REQUIRED) (logical_outputs tg).

Definition output_slack_tags (tg : TimingGraph) (an : SetupTimingAnalyzer)
  : list TimingTag :=
  flat_map (setup_slacks an) (logical_outputs tg).

(** Every hold-slack tag of every node of the graph. *)
Definition all_hold_tags (tg : TimingGraph) (an : HoldTimingAnalyzer)
  : list TimingTag :=
  flat_map (hold_slacks an) (nodes tg).

(** Keeping, per domain pair, the time that no later one beats. *)
Definition record_extreme (beats : float → float → bool)
  (m : gmap DomainPair float) (tag : TimingTag) : gmap DomainPair float :=
  match m !! domain_pair_of tag with
  | Some cur => if beats cur (time tag)
                then <[domain_pair_of tag := time tag]> m else m
  | None => <[domain_pair_of tag := time tag]> m
  end.

Definition extreme_time (beats : float → float → bool)
  (tags : list TimingTag) (v : float) : Prop :=
  (∃ t, t ∈ tags ∧ time t = v) ∧ ∀ t, t ∈ tags → beats v (time t) = false.

(** What an aggregate holds under a domain pair, given the tags scanned. *)
Definition aggregate_entry (extreme : list TimingTag → float → Prop)
  (tags : list TimingTag) (dp : DomainPair) (entry : option float) : Prop :=
  match entry with
  | Some v => extreme (tags_of_pair dp tags) v
  | None => ∀ t, t ∈ tags → domain_pair_of t ≠ dp
  end.

(** The node set a setup criticality update processes, given the fresh
    aggregates and the state holding the previous ones. *)
Definition processed_nodes (tg : TimingGraph) (an : SetupTimingAnalyzer)
  (mr ws : gmap DomainPair float) (st : SetupSlackCrit.t) : list NodeId :=
  if map_eqb mr (SetupSlackCrit.prev_max_req_ st)
     && map_eqb ws (SetupSlackCrit.prev_worst_slack_ st)
  then modified_nodes an else nodes tg.

(** Every array entry that is the pin of none of the nodes is as before. *)
Definition entries_kept (lk : AtomLookup) (ns : list NodeId)
  (crit crit' : list float) : Prop :=
  ∀ i, (∀ n, n ∈ ns → tnode_atom_pin lk n ≠ Some i) → crit' !! i = crit !! i.

(** The entry at the pin of each of the nodes holds the value that
    [calc_relaxed_criticality] returned, on the given aggregates, for the
    setup-slack tags of one of the nodes with that pin: the node itself
    when distinct nodes have distinct pins. *)
Definition entries_recomputed (lk : AtomLookup)
  (calc : gmap DomainPair float → gmap DomainPair float → list TimingTag →
          outcome float)
  (an : SetupTimingAnalyzer) (mr ws : gmap DomainPair float)
  (ns : list NodeId) (crit' : list float) : Prop :=
  ∀ n, n ∈ ns →
    ∃ i n' c,
      tnode_atom_pin lk n = Some i
      ∧ n' ∈ ns
      ∧ tnode_atom_pin lk n' = Some i
      ∧ calc mr ws (setup_slacks an n') = Ok c
      ∧ crit' !! i = Some c
      ∧ (lookup_injective_on lk ns → n' = n).

(** The shape shared by the per-pin loops: compute a value for [x], then
    store it at the pin of [x]. *)
Definition write_body {X} (pinof : X → AtomPinId) (g : X → outcome float)
  (x : X) (v : list float) : outcome (list float) :=
  do c <- g x; vec_set v (pinof x) c.

(** A sequence of array writes, and the last value written at an index. *)
Definition apply_writes (ws : list (nat * float)) (v : list float)
  : list float :=
  fold_left (fun v w => <[w.1 := w.2]> v) ws v.

Fixpoint last_write (j : nat) (ws : list (nat * float)) : option float :=
  match ws with
  | [] => None
  | w :: ws' =>
      match last_write j ws' with
      | Some c => Some c
      | None => if decide (w.1 = j) then Some w.2 else None
      end
  end.

(** The writes a run performs: each element's pin index and value. *)
Definition writes_of {X} (pinof : X → AtomPinId) (g : X → outcome float)
  (len : nat) (xs : list X) (ws : list (nat * float)) : Prop :=
  Forall2 (fun x w => pinof x = Some w.1 ∧ g x = Ok w.2 ∧ w.1 < len) xs ws.

(** ** Vocabulary of the further statements *)

(** A pin id that indexes an array of the given length. *)
Definition pin_in_range (len : nat) (pin : AtomPinId) : Prop :=
  ∃ i, pin = Some i ∧ i < len.

(** The states an evaluator goes through: the constructed one, and the
    one after each combined update that returns. *)
Inductive setup_reachable (safe : bool) (nl : AtomNetlist) (lk : AtomLookup)
  (calc : gmap DomainPair float → gmap DomainPair float → list TimingTag →
          outcome float) : SetupSlackCrit.t → Prop :=
  | setup_reachable_create :
      setup_reachable safe nl lk calc (SetupSlackCrit.create nl)
  | setup_reachable_update tg an st st' :
      setup_reachable safe nl lk calc st →
      SetupSlackCrit.update_slacks_and_criticalities safe lk calc tg an st
      = Ok st' →
      setup_reachable safe nl lk calc st'.

Inductive hold_reachable (on : bool) (nl : AtomNetlist) (lk : AtomLookup)
  : HoldSlackCrit.t → Prop :=
  | hold_reachable_create : hold_reachable on nl lk (HoldSlackCrit.create nl)
  | hold_reachable_update tg an st st' :
      hold_reachable on nl lk st →
      HoldSlackCrit.update_slacks_and_criticalities on nl lk tg an st
      = Ok st' →
      hold_reachable on nl lk st'.

(** The two phases of the combined updates, taken in the other order. *)
Definition setup_criticalities_then_slacks (safe : bool) (lk : AtomLookup)
  (calc : gmap DomainPair float → gmap DomainPair float → list TimingTag →
          outcome float)
  (tg : TimingGraph) (an : SetupTimingAnalyzer) (st : SetupSlackCrit.t)
  : outcome SetupSlackCrit.t :=
  do st1 <- SetupSlackCrit.update_criticalities safe lk calc tg an st;
  SetupSlackCrit.update_slacks safe lk an st1.

Definition hold_criticalities_then_slacks (on : bool) (nl : AtomNetlist)
  (lk : AtomLookup) (tg : TimingGraph) (an : HoldTimingAnalyzer)
  (st : HoldSlackCrit.t) : outcome HoldSlackCrit.t :=
  do st1 <- HoldSlackCrit.update_criticalities on nl lk tg an st;
  HoldSlackCrit.update_slacks on nl lk an st1.

(** No time stored in an aggregate is a NaN. *)
Definition nan_free (m : gmap DomainPair float) : Prop :=
  ∀ dp v, m !! dp = Some v → isnan v = false.

(** More designs for concrete runs. *)
Module Example2.

(** Hold slack [3.0] at both nodes. *)
Definition hold_equal : HoldTimingAnalyzer :=
  {| hold_slacks := fun n =>
       match n with
       | Some 0 => [Example.tag (of_Z 3)]
       | Some 1 => [Example.tag (of_Z 3)]
       | _ => []
       end |}.

(** A required time that is a NaN at node 0. *)
Definition nan_setup : SetupTimingAnalyzer :=
  {| setup_tags := fun n ty =>
       match n, ty with
       | Some 0, DATA_REQUIRED => [Example.tag NAN]
       | _, _ => []
       end;
     setup_slacks := fun n =>
       match n with
       | Some 0 => [Example.tag (of_Z 1)]
       | _ => []
       end;
     modified_nodes := [Example.n0] |}.

(** An infinite slack at node 0. *)
Definition infinite_slack_setup : SetupTimingAnalyzer :=
  {| setup_tags := fun _ _ => [];
     setup_slacks := fun n =>
       match n with
       | Some 0 => [Example.tag infinity]
       | _ => []
       end;
     modified_nodes := [Example.n0] |}.


End Example2.

(** Tactics for concrete runs: evaluate both sides; membership in a
    literal list. *)
Ltac run_ok := vm_compute; reflexivity.

Ltac in_list := apply list_elem_of_In; simpl; tauto.

(** *** Order facts about [<] on IEEE numbers *)

Lemma flt_irrefl (x : float) : flt x x = false.
Proof.
  unfold flt, SFltb.
  destruct x as [s|s| |s m e]; simpl; try reflexivity.
  - destruct s; reflexivity.
  - destruct s; rewrite Z.compare_refl;
      change (Pos.compare_cont Eq m m) with (Pos.compare m m);
      rewrite Pos.compare_refl; reflexivity.
Qed.

Lemma flt_trans (x y z : float) :
  flt x y = true → flt y z = true → flt x z = true.
Proof.
  unfold flt, SFltb.
  destruct x as [sx|sx| |sx mx ex], y as [sy|sy| |sy my ey],
    z as [sz|sz| |sz mz ez]; simpl;
    repeat match goal with s : bool |- _ => destruct s end; simpl;
    try discriminate; try reflexivity; intros Hxy Hyz.
  - change (Pos.compare_cont Eq ?a ?b) with (Pos.compare a b) in *.
    destruct (Z.compare_spec ex ey), (Z.compare_spec ey ez),
      (Z.compare_spec ex ez); try discriminate; try lia; try reflexivity.
    subst. destruct (Pos.compare_spec mx my), (Pos.compare_spec my mz),
      (Pos.compare_spec mx mz); simpl in *; try discriminate; try lia;
      reflexivity.
  - change (Pos.compare_cont Eq ?a ?b) with (Pos.compare a b) in *.
    destruct (Z.compare_spec ex ey), (Z.compare_spec ey ez),
      (Z.compare_spec ex ez); try discriminate; try lia; try reflexivity.
    subst. destruct (Pos.compare_spec mx my), (Pos.compare_spec my mz),
      (Pos.compare_spec mx mz); simpl in *; try discriminate; try lia;
      reflexivity.
Qed.

Lemma flt_false_trans (s t b : float) :
  flt s b = false → flt t b = true → flt s t = false.
Proof.
  intros Hsb Htb. destruct (flt s t) eqn:Hst; [|done].
  by rewrite (flt_trans s t b Hst Htb) in Hsb.
Qed.

Lemma flt_false_trans_r (b t s : float) :
  flt b s = false → flt b t = true → flt t s = false.
Proof.
  intros Hbs Hbt. destruct (flt t s) eqn:Hts; [|done].
  by rewrite (flt_trans b t s Hbt Hts) in Hbs.
Qed.

Lemma fle_not_flt_feq (x y : float) :
  fle x y = true → flt x y = false → feq x y = true.
Proof.
  unfold fle, flt, feq, SFleb, SFltb, SFeqb.
  destruct (SFcompare x y) as [[]|]; congruence.
Qed.

Lemma feq_refl_l (x y : float) : feq x y = true → feq x x = true.
Proof.
  unfold feq, SFeqb.
  destruct x as [sx|sx| |sx mx ex], y as [sy|sy| |sy my ey]; simpl;
    repeat match goal with s : bool |- _ => destruct s end; simpl;
    try discriminate; try reflexivity; intros _;
    rewrite Z.compare_refl;
    change (Pos.compare_cont Eq mx mx) with (Pos.compare mx mx);
    rewrite Pos.compare_refl; reflexivity.
Qed.

(** [std::min] and [std::max] return one of their arguments. *)
Lemma std_min_cases (a b : float) :
  (flt b a = true ∧ std_min a b = b) ∨ (flt b a = false ∧ std_min a b = a).
Proof. unfold std_min. destruct (flt b a); auto. Qed.

Lemma std_max_cases (a b : float) :
  (flt a b = true ∧ std_max a b = b) ∨ (flt a b = false ∧ std_max a b = a).
Proof. unfold std_max. destruct (flt a b); auto. Qed.

(** *** Outcomes and loops *)

Lemma bind_Ok {A B} (m : outcome A) (k : A → outcome B) (b : B) :
  bind m k = Ok b ↔ ∃ a, m = Ok a ∧ k a = Ok b.
Proof.
  destruct m; simpl; split; try (intros [? [? ?]]; congruence);
    try discriminate.
  - eauto.
Qed.

Lemma check_Ok (enabled cond : bool) (u : unit) :
  check enabled cond = Ok u ↔ (enabled = true → cond = true).
Proof.
  unfold check. destruct u, enabled, cond; simpl; split; try done;
    intros H; try discriminate; by specialize (H eq_refl).
Qed.

Lemma check_pass (enabled : bool) : check enabled true = Ok tt.
Proof. unfold check. by destruct enabled. Qed.

Lemma check_disabled (cond : bool) : check false cond = Ok tt.
Proof. done. Qed.

Lemma check_fail : check true false = @AssertionFailure unit.
Proof. done. Qed.

Lemma for_each_app {A S} (xs ys : list A) (body : A → S → outcome S) (s : S) :
  for_each (xs ++ ys) body s = do s' <- for_each xs body s; for_each ys body s'.
Proof.
  revert s. induction xs as [|x xs IH]; intros s; simpl; [done|].
  destruct (body x s); simpl; auto.
Qed.

Lemma for_each_ext {A S} (xs : list A) (f g : A → S → outcome S) (s : S) :
  (∀ x s, x ∈ xs → f x s = g x s) → for_each xs f s = for_each xs g s.
Proof.
  revert s. induction xs as [|x xs IH]; intros s Hfg; simpl; [done|].
  rewrite Hfg by left. destruct (g x s); simpl; auto.
  apply IH. intros y s' Hy. apply Hfg. by right.
Qed.

(** A loop whose body cannot fail is a fold. *)
Lemma for_each_pure {A S} (xs : list A) (f : S → A → S) (s : S) :
  for_each xs (fun x s => Ok (f s x)) s = Ok (fold_left f xs s).
Proof. revert s. induction xs as [|x xs IH]; intros s; simpl; auto. Qed.

(** *** Array writes *)

Lemma vec_set_Ok (v v' : list float) (pin : AtomPinId) (x : float) :
  vec_set v pin x = Ok v' ↔
  ∃ i, pin = Some i ∧ i < length v ∧ v' = <[i := x]> v.
Proof.
  unfold vec_set. destruct pin as [i|].
  - case_decide; split.
    + intros [= <-]. eauto.
    + intros (j & [= <-] & _ & ->). done.
    + discriminate.
    + intros (j & [= <-] & ? & _). lia.
  - split; [discriminate|]. intros (? & ? & _). discriminate.
Qed.

Lemma vec_set_not_assert (v : list float) (pin : AtomPinId) (x : float) :
  vec_set v pin x ≠ AssertionFailure.
Proof. unfold vec_set. destruct pin; [case_decide|]; discriminate. Qed.

Lemma nodes_to_pins_map (ns : list NodeId) (lk : AtomLookup)
  (ps : list AtomPinId) :
  nodes_to_pins ns lk ps = ps ++ (tnode_atom_pin lk <$> ns).
Proof.
  unfold nodes_to_pins. revert ps.
  induction ns as [|n ns IH]; intros ps; simpl.
  - by rewrite app_nil_r.
  - rewrite IH, <- app_assoc. done.
Qed.

(** *** Loops that write one array entry per element *)

Lemma apply_writes_length (ws : list (nat * float)) (v : list float) :
  length (apply_writes ws v) = length v.
Proof.
  unfold apply_writes. revert v.
  induction ws as [|w ws IH]; intros v; simpl; [done|].
  by rewrite IH, length_insert.
Qed.

Lemma apply_writes_lookup (ws : list (nat * float)) (v : list float) (j : nat) :
  apply_writes ws v !! j =
  match last_write j ws with
  | Some c => if decide (j < length v) then Some c else None
  | None => v !! j
  end.
Proof.
  unfold apply_writes. revert v.
  induction ws as [|w ws IH]; intros v; simpl; [done|].
  rewrite IH, length_insert.
  destruct (last_write j ws) as [c|]; [done|].
  destruct (decide (w.1 = j)) as [<-|Hne].
  - case_decide.
    + by apply list_lookup_insert_eq.
    + rewrite list_insert_ge by lia. apply lookup_ge_None. lia.
  - by apply list_lookup_insert_ne.
Qed.

Lemma apply_writes_idemp (ws : list (nat * float)) (v : list float) :
  apply_writes ws (apply_writes ws v) = apply_writes ws v.
Proof.
  apply list_eq. intros j.
  rewrite (apply_writes_lookup ws (apply_writes ws v)), apply_writes_length.
  rewrite (apply_writes_lookup ws v).
  by destruct (last_write j ws).
Qed.

Lemma write_loop_Ok {X} (pinof : X → AtomPinId) (g : X → outcome float)
  (xs : list X) (v v' : list float) :
  for_each xs (write_body pinof g) v = Ok v' ↔
  ∃ ws, writes_of pinof g (length v) xs ws ∧ v' = apply_writes ws v.
Proof.
  unfold writes_of, apply_writes. revert v.
  induction xs as [|x xs IH]; intros v; simpl.
  - split.
    + intros [= <-]. exists []. split; [constructor|done].
    + intros (ws & Hws & ->). by inversion Hws.
  - rewrite bind_Ok. split.
    + intros (v1 & Hx & Hrest). unfold write_body in Hx.
      apply bind_Ok in Hx as (c & Hg & Hset).
      apply vec_set_Ok in Hset as (i & Hpin & Hi & ->).
      apply IH in Hrest as (ws & Hws & ->).
      rewrite length_insert in Hws.
      exists ((i, c) :: ws). split; [|done]. by constructor.
    + intros (ws & Hws & ->).
      inversion Hws as [|x0 w xs0 ws' (Hpin & Hg & Hi) Hrest]; subst.
      exists (<[w.1 := w.2]> v). split.
      * unfold write_body. rewrite Hg. simpl. apply vec_set_Ok. eauto.
      * apply IH. exists ws'. by rewrite length_insert.
Qed.

Lemma write_loop_length {X} (pinof : X → AtomPinId) (g : X → outcome float)
  (xs : list X) (v v' : list float) :
  for_each xs (write_body pinof g) v = Ok v' → length v' = length v.
Proof.
  intros (ws & _ & ->)%write_loop_Ok. apply apply_writes_length.
Qed.

(** Every element of a loop that returns had a valid pin inside the array
    and a value. *)
Lemma write_loop_elem {X} (pinof : X → AtomPinId) (g : X → outcome float)
  (xs : list X) (v v' : list float) (x : X) :
  for_each xs (write_body pinof g) v = Ok v' → x ∈ xs →
  ∃ i c, pinof x = Some i ∧ i < length v ∧ g x = Ok c.
Proof.
  intros (ws & Hws & _)%write_loop_Ok Hx.
  unfold writes_of in Hws. revert Hx.
  induction Hws as [|y w ys ws' (Hpin & Hg & Hi) _ IH]; intros Hx.
  - by apply elem_of_nil in Hx.
  - apply elem_of_cons in Hx as [->|Hx]; eauto.
Qed.

Lemma last_write_None {X} (pinof : X → AtomPinId) (g : X → outcome float)
  (len : nat) (xs : list X) (ws : list (nat * float)) (j : nat) :
  writes_of pinof g len xs ws → (∀ x, x ∈ xs → pinof x ≠ Some j) →
  last_write j ws = None.
Proof.
  unfold writes_of. induction 1 as [|y w ys ws' (Hpin & _ & _) _ IH];
    intros Hno; simpl; [done|].
  rewrite IH by (intros x Hx; apply Hno; by right).
  case_decide as Hw; [|done]. subst j.
  exfalso. apply (Hno y); [by left|done].
Qed.

Lemma last_write_Some {X} (pinof : X → AtomPinId) (g : X → outcome float)
  (len : nat) (xs : list X) (ws : list (nat * float)) (j : nat) (c : float) :
  writes_of pinof g len xs ws → last_write j ws = Some c →
  ∃ x, x ∈ xs ∧ pinof x = Some j ∧ g x = Ok c ∧ j < len.
Proof.
  unfold writes_of. induction 1 as [|y w ys ws' (Hpin & Hg & Hi) _ IH];
    simpl; [discriminate|].
  destruct (last_write j ws') as [c'|] eqn:Hl.
  - intros [= ->]. destruct IH as (x & Hx & ?); [done|].
    exists x. split; [by right|done].
  - case_decide as Hw; [|discriminate]. intros [= <-]. subst j.
    exists y. split; [by left|done].
Qed.

Lemma last_write_is_Some {X} (pinof : X → AtomPinId) (g : X → outcome float)
  (len : nat) (xs : list X) (ws : list (nat * float)) (j : nat) (x : X) :
  writes_of pinof g len xs ws → x ∈ xs → pinof x = Some j →
  is_Some (last_write j ws).
Proof.
  unfold writes_of. induction 1 as [|y w ys ws' (Hpin & Hg & Hi) _ IH];
    intros Hx Hj; simpl.
  - by apply elem_of_nil in Hx.
  - destruct (last_write j ws') as [c'|] eqn:Hl; [eauto|].
    apply elem_of_cons in Hx as [->|Hx].
    + rewrite Hpin in Hj. injection Hj as <-. rewrite decide_True by done. eauto.
    + destruct IH as [? ?]; done.
Qed.

(** Frame: an entry that is the pin of no element keeps its value. *)
Lemma write_loop_frame {X} (pinof : X → AtomPinId) (g : X → outcome float)
  (xs : list X) (v v' : list float) (j : nat) :
  for_each xs (write_body pinof g) v = Ok v' →
  (∀ x, x ∈ xs → pinof x ≠ Some j) → v' !! j = v !! j.
Proof.
  intros (ws & Hws & ->)%write_loop_Ok Hno.
  rewrite apply_writes_lookup.
  by rewrite (last_write_None pinof g _ xs ws j Hws Hno).
Qed.

(** The entry of a written pin holds the value of one of its writers. *)
Lemma write_loop_written {X} (pinof : X → AtomPinId) (g : X → outcome float)
  (xs : list X) (v v' : list float) (x : X) (j : nat) :
  for_each xs (write_body pinof g) v = Ok v' → x ∈ xs → pinof x = Some j →
  ∃ y c, y ∈ xs ∧ pinof y = Some j ∧ g y = Ok c ∧ v' !! j = Some c.
Proof.
  intros (ws & Hws & ->)%write_loop_Ok Hx Hj.
  destruct (last_write_is_Some pinof g _ xs ws j x Hws Hx Hj) as [c Hc].
  destruct (last_write_Some pinof g _ xs ws j c Hws Hc) as (y & Hy & Hpy & Hgy & Hlt).
  exists y, c. repeat split; try done.
  rewrite apply_writes_lookup, Hc. by rewrite decide_True.
Qed.

(** Running the same loop again on its own result changes nothing. *)
Lemma write_loop_idemp {X} (pinof : X → AtomPinId) (g : X → outcome float)
  (xs : list X) (v v' : list float) :
  for_each xs (write_body pinof g) v = Ok v' →
  for_each xs (write_body pinof g) v' = Ok v'.
Proof.
  intros (ws & Hws & ->)%write_loop_Ok.
  apply write_loop_Ok. exists ws. split.
  - by rewrite apply_writes_length.
  - by rewrite apply_writes_idemp.
Qed.

(** A loop all of whose writes are already in place returns its input. *)
Lemma write_loop_in_place {X} (pinof : X → AtomPinId) (g : X → outcome float)
  (xs : list X) (v : list float) :
  (∀ x, x ∈ xs → ∃ i c, pinof x = Some i ∧ g x = Ok c ∧ v !! i = Some c) →
  for_each xs (write_body pinof g) v = Ok v.
Proof.
  induction xs as [|x xs IH]; intros Hall; simpl; [done|].
  destruct (Hall x) as (i & c & Hpin & Hg & Hv); [by left|].
  unfold write_body at 1. rewrite Hg, Hpin. simpl.
  rewrite decide_True by (by eapply lookup_lt_Some).
  rewrite list_insert_id by done. simpl.
  apply IH. intros y Hy. apply Hall. by right.
Qed.

(** A loop returns when every element has a pin inside the array and a
    value. *)
Lemma write_loop_total {X} (pinof : X → AtomPinId) (g : X → outcome float)
  (xs : list X) (v : list float) :
  (∀ x, x ∈ xs → ∃ i c, pinof x = Some i ∧ i < length v ∧ g x = Ok c) →
  ∃ v', for_each xs (write_body pinof g) v = Ok v'.
Proof.
  revert v. induction xs as [|x xs IH]; intros v Hall; simpl; [eauto|].
  destruct (Hall x) as (i & c & Hpin & Hi & Hg); [by left|].
  unfold write_body at 1. rewrite Hg, Hpin. simpl.
  rewrite decide_True by done. simpl.
  apply IH. intros y Hy. rewrite length_insert. apply Hall. by right.
Qed.

(** Every entry after a loop is either untouched or the value of one of
    the elements whose pin it is. *)
Lemma write_loop_cases {X} (pinof : X → AtomPinId) (g : X → outcome float)
  (xs : list X) (v v' : list float) (j : nat) :
  for_each xs (write_body pinof g) v = Ok v' →
  v' !! j = v !! j
  ∨ ∃ y c, y ∈ xs ∧ pinof y = Some j ∧ g y = Ok c ∧ v' !! j = Some c.
Proof.
  intros (ws & Hws & ->)%write_loop_Ok.
  rewrite apply_writes_lookup.
  destruct (last_write j ws) as [c|] eqn:Hl; [|by left]. right.
  destruct (last_write_Some pinof g _ xs ws j c Hws Hl)
    as (y & Hy & Hpy & Hgy & Hlt).
  exists y, c. by rewrite decide_True.
Qed.

(** How a loop can fail: never in an assertion when no element's value
    does, and in an assertion when some element's value does and every pin
    is inside the array. *)
Lemma write_loop_not_assert {X} (pinof : X → AtomPinId) (g : X → outcome float)
  (xs : list X) (v : list float) :
  (∀ x, x ∈ xs → g x ≠ AssertionFailure) →
  for_each xs (write_body pinof g) v ≠ AssertionFailure.
Proof.
  revert v. induction xs as [|x xs IH]; intros v Hall; simpl; [done|].
  unfold write_body at 1.
  destruct (g x) as [c| |] eqn:Hg; simpl.
  - destruct (vec_set v (pinof x) c) as [v1| |] eqn:Hset; simpl.
    + apply IH. intros y Hy. apply Hall. by right.
    + by apply vec_set_not_assert in Hset.
    + done.
  - exfalso. by apply (Hall x); [left|].
  - done.
Qed.

Lemma write_loop_assert {X} (pinof : X → AtomPinId) (g : X → outcome float)
  (xs : list X) (v : list float) :
  (∀ x, x ∈ xs → ∃ i, pinof x = Some i ∧ i < length v) →
  (∀ x, x ∈ xs → g x ≠ OutOfBounds) →
  (∃ x, x ∈ xs ∧ g x = AssertionFailure) →
  for_each xs (write_body pinof g) v = AssertionFailure.
Proof.
  revert v. induction xs as [|x xs IH]; intros v Hin Hnoob (y & Hy & Hfail).
  - by apply elem_of_nil in Hy.
  - simpl. unfold write_body at 1.
    destruct (g x) as [c| |] eqn:Hg; simpl; [|done|].
    + destruct (Hin x) as (i & Hpin & Hi); [by left|].
      rewrite Hpin. simpl. rewrite decide_True by done. simpl.
      apply IH.
      * intros z Hz. rewrite length_insert. apply Hin. by right.
      * intros z Hz. apply Hnoob. by right.
      * apply elem_of_cons in Hy as [->|Hy]; [congruence|eauto].
    + exfalso. by apply (Hnoob x); [left|].
Qed.

(** *** Running minimum and maximum *)

Lemma running_max {X} (f : X → float) (xs : list X) (c0 : float) :
  let c := fold_left (fun c x => std_max c (f x)) xs c0 in
  (c = c0 ∨ ∃ x, x ∈ xs ∧ c = f x)
  ∧ (∀ x, x ∈ xs → flt c (f x) = false)
  ∧ flt c c0 = false.
Proof.
  induction xs as [|x xs IH] using rev_ind; simpl.
  - split; [by left|]. split; [|apply flt_irrefl].
    intros x Hx. by apply elem_of_nil in Hx.
  - rewrite fold_left_app. simpl. simpl in IH.
    set (c := fold_left (fun c x => std_max c (f x)) xs c0) in *.
    destruct IH as (Hatt & Hub & Hlow).
    destruct (std_max_cases c (f x)) as [[Hlt ->]|[Hlt ->]].
    + split; [|split].
      * right. exists x. split; [|done]. apply elem_of_app. right. by left.
      * intros y [Hy| ->%list_elem_of_singleton]%elem_of_app.
        -- eapply flt_false_trans_r; eauto.
        -- apply flt_irrefl.
      * eapply flt_false_trans_r; eauto.
    + split; [|split].
      * destruct Hatt as [->|(y & Hy & ->)]; [by left|right].
        exists y. split; [|done]. apply elem_of_app. by left.
      * intros y [Hy| ->%list_elem_of_singleton]%elem_of_app; auto.
      * done.
Qed.

Lemma running_min {X} (f : X → float) (xs : list X) (c0 : float) :
  let c := fold_left (fun c x => std_min c (f x)) xs c0 in
  (c = c0 ∨ ∃ x, x ∈ xs ∧ c = f x)
  ∧ (∀ x, x ∈ xs → flt (f x) c = false)
  ∧ flt c0 c = false.
Proof.
  induction xs as [|x xs IH] using rev_ind; simpl.
  - split; [by left|]. split; [|apply flt_irrefl].
    intros x Hx. by apply elem_of_nil in Hx.
  - rewrite fold_left_app. simpl. simpl in IH.
    set (c := fold_left (fun c x => std_min c (f x)) xs c0) in *.
    destruct IH as (Hatt & Hlb & Hhigh).
    destruct (std_min_cases c (f x)) as [[Hlt ->]|[Hlt ->]].
    + split; [|split].
      * right. exists x. split; [|done]. apply elem_of_app. right. by left.
      * intros y [Hy| ->%list_elem_of_singleton]%elem_of_app.
        -- eapply flt_false_trans; eauto.
        -- apply flt_irrefl.
      * eapply flt_false_trans; eauto.
    + split; [|split].
      * destruct Hatt as [->|(y & Hy & ->)]; [by left|right].
        exists y. split; [|done]. apply elem_of_app. by left.
      * intros y [Hy| ->%list_elem_of_singleton]%elem_of_app; auto.
      * done.
Qed.

(** A running maximum that nothing exceeds keeps its start value. *)
Lemma running_max_stays {X} (f : X → float) (xs : list X) (c0 : float) :
  (∀ x, x ∈ xs → flt c0 (f x) = false) →
  fold_left (fun c x => std_max c (f x)) xs c0 = c0.
Proof.
  induction xs as [|x xs IH]; intros Hall; simpl; [done|].
  unfold std_max at 2. rewrite Hall by (by left).
  apply IH. intros y Hy. apply Hall. by right.
Qed.

(** *** The minimum-tag scan *)

Lemma min_scan (rest seen : list TimingTag) (best : TimingTag) :
  best ∈ seen → (∀ t, t ∈ seen → flt (time t) (time best) = false) →
  let r := fold_left (fun best t' => if flt (time t') (time best)
                                     then t' else best) rest best in
  r ∈ seen ++ rest ∧ ∀ t, t ∈ seen ++ rest → flt (time t) (time r) = false.
Proof.
  revert seen best. induction rest as [|t' rest IH]; intros seen best Hin Hlow.
  - simpl. rewrite app_nil_r. done.
  - simpl. replace (seen ++ t' :: rest) with ((seen ++ [t']) ++ rest)
      by (by rewrite <- app_assoc).
    destruct (flt (time t') (time best)) eqn:Hlt; apply IH.
    + apply elem_of_app. right. by left.
    + intros t [Ht|Ht%list_elem_of_singleton]%elem_of_app.
      * eapply flt_false_trans; eauto.
      * subst. apply flt_irrefl.
    + apply elem_of_app. by left.
    + intros t [Ht|Ht%list_elem_of_singleton]%elem_of_app; [auto|by subst].
Qed.

Lemma find_minimum_tag_nil : find_minimum_tag [] = None.
Proof. done. Qed.

Lemma find_minimum_tag_Some (tags : list TimingTag) (t : TimingTag) :
  find_minimum_tag tags = Some t → least_time tags (time t).
Proof.
  destruct tags as [|t0 rest]; [discriminate|]. simpl. intros [= <-].
  destruct (min_scan rest [t0] t0) as [Hin Hlow].
  - by left.
  - intros t ->%list_elem_of_singleton. apply flt_irrefl.
  - simpl in Hin, Hlow. split; [eauto|done].
Qed.

Lemma find_minimum_tag_None (tags : list TimingTag) :
  find_minimum_tag tags = None ↔ tags = [].
Proof. destruct tags; simpl; split; done. Qed.

(** *** Equality of the aggregates *)

Lemma entry_in_spec (m2 : gmap DomainPair float) (k : DomainPair) (v : float) :
  entry_in m2 (k, v) = true ↔ entry_equal (Some v) (m2 !! k).
Proof.
  unfold entry_in, entry_equal. simpl.
  destruct (m2 !! k); split; done.
Qed.

Lemma map_eqb_spec (m1 m2 : gmap DomainPair float) :
  map_eqb m1 m2 = true ↔ maps_equal m1 m2.
Proof.
  unfold map_eqb, maps_equal.
  rewrite andb_true_iff, bool_decide_eq_true, forallb_forall. split.
  - intros [Hsize Hall].
    assert (Hsub : ∀ k v, m1 !! k = Some v → entry_equal (Some v) (m2 !! k)).
    { intros k v Hk. apply entry_in_spec, Hall, list_elem_of_In.
      by apply elem_of_map_to_list. }
    assert (Hdom : dom m1 = dom m2).
    { apply set_subseteq_size_eq.
      - intros k [v Hk]%elem_of_dom. apply Hsub in Hk.
        apply elem_of_dom. unfold entry_equal in Hk.
        destruct (m2 !! k); [eauto|done].
      - rewrite !size_dom. lia. }
    intros dp. destruct (m1 !! dp) as [v|] eqn:H1; [by apply Hsub|].
    apply not_elem_of_dom in H1. rewrite Hdom in H1.
    apply not_elem_of_dom in H1. by rewrite H1.
  - intros Heq. split.
    + rewrite <- !size_dom. f_equal. apply set_eq. intros k.
      rewrite !elem_of_dom. specialize (Heq k). unfold entry_equal in Heq.
      destruct (m1 !! k), (m2 !! k); split; intros [? ?]; try done; eauto.
    + intros [k v] Hin%list_elem_of_In%elem_of_map_to_list.
      apply entry_in_spec. specialize (Heq k). by rewrite Hin in Heq.
Qed.

Lemma map_eqb_self (m1 m2 : gmap DomainPair float) :
  map_eqb m1 m2 = true → map_eqb m1 m1 = true.
Proof.
  rewrite !map_eqb_spec. intros Heq dp. specialize (Heq dp).
  unfold entry_equal in *. destruct (m1 !! dp), (m2 !! dp); try done.
  by eapply feq_refl_l.
Qed.

Lemma min_time_or_infinity_spec (tags : list TimingTag) :
  slack_of_tags tags (min_time_or_infinity tags).
Proof.
  unfold slack_of_tags, min_time_or_infinity.
  destruct (find_minimum_tag tags) as [t|] eqn:Hmin.
  - right. split.
    + intros ->. discriminate.
    + by apply find_minimum_tag_Some.
  - left. by apply find_minimum_tag_None in Hmin.
Qed.

Lemma filter_all_true {A} (P : A → Prop) `{∀ x, Decision (P x)} (l : list A) :
  (∀ x, x ∈ l → P x) → filter P l = l.
Proof.
  induction l as [|x l IH]; intros Hall; [done|].
  rewrite filter_cons_True by (apply Hall; by left).
  f_equal. apply IH. intros y Hy. apply Hall. by right.
Qed.

Lemma remove_dups_NoDup {A} `{EqDecision A} (l : list A) :
  NoDup l → remove_dups l = l.
Proof.
  induction 1 as [|x l Hx _ IH]; simpl; [done|].
  destruct (decide_rel elem_of x l); [done|]. by rewrite IH.
Qed.

(** *** Per-domain-pair aggregation *)

Lemma tags_of_pair_snoc_other (dp : DomainPair) (tags : list TimingTag)
  (x : TimingTag) :
  domain_pair_of x ≠ dp → tags_of_pair dp (tags ++ [x]) = tags_of_pair dp tags.
Proof.
  intros Hne. unfold tags_of_pair.
  rewrite filter_app, filter_cons_False, filter_nil, app_nil_r; done.
Qed.

Lemma elem_of_tags_of_pair (dp : DomainPair) (tags : list TimingTag)
  (t : TimingTag) :
  t ∈ tags_of_pair dp tags ↔ domain_pair_of t = dp ∧ t ∈ tags.
Proof. unfold tags_of_pair. by rewrite list_elem_of_filter. Qed.

Section Extreme.
Variable beats : float → float → bool.
Hypothesis beats_irrefl : ∀ x, beats x x = false.
Hypothesis beats_trans :
  ∀ x y z, beats x y = true → beats y z = true → beats x z = true.

Lemma aggregate_entry_snoc_other (tags : list TimingTag) (x : TimingTag)
  (dp : DomainPair) (e : option float) :
  domain_pair_of x ≠ dp →
  aggregate_entry (extreme_time beats) tags dp e →
  aggregate_entry (extreme_time beats) (tags ++ [x]) dp e.
Proof.
  intros Hne. unfold aggregate_entry. destruct e as [v|].
  - by rewrite tags_of_pair_snoc_other.
  - intros Hno t [Ht| ->%list_elem_of_singleton]%elem_of_app; auto.
Qed.

Lemma record_extreme_fold (tags : list TimingTag) (dp : DomainPair) :
  aggregate_entry (extreme_time beats) tags dp
    (fold_left (record_extreme beats) tags ∅ !! dp).
Proof using beats_irrefl beats_trans.
  revert dp. induction tags as [|x tags IH] using rev_ind; intros dp.
  - simpl. rewrite lookup_empty. simpl. intros t Ht.
    by apply elem_of_nil in Ht.
  - rewrite fold_left_app. simpl.
    set (m := fold_left (record_extreme beats) tags ∅) in *.
    assert (Hx : x ∈ tags_of_pair (domain_pair_of x) (tags ++ [x])).
    { apply elem_of_tags_of_pair. split; [done|].
      apply elem_of_app. right. by left. }
    pose proof (IH (domain_pair_of x)) as IHx.
    unfold record_extreme.
    destruct (m !! domain_pair_of x) as [cur|] eqn:Hcur;
      [destruct (beats cur (time x)) eqn:Hb|];
      (destruct (decide (domain_pair_of x = dp)) as [<-|Hne];
       [|try rewrite lookup_insert_ne by done;
         by apply aggregate_entry_snoc_other]).
    + rewrite lookup_insert_eq. simpl. simpl in IHx. destruct IHx as [_ Hub].
      split; [eauto|].
      intros t [Hdp [Ht| ->%list_elem_of_singleton]%elem_of_app]
        %elem_of_tags_of_pair; [|apply beats_irrefl].
      destruct (beats (time x) (time t)) eqn:E; [|done].
      rewrite <- (Hub t); [|by apply elem_of_tags_of_pair].
      symmetry. by eapply beats_trans.
    + rewrite Hcur. simpl. simpl in IHx.
      destruct IHx as [(t0 & Ht0 & Hv) Hub].
      apply elem_of_tags_of_pair in Ht0 as [Hdp0 Ht0]. split.
      * exists t0. split; [|done]. apply elem_of_tags_of_pair.
        split; [done|]. apply elem_of_app. by left.
      * intros t [Hdp [Ht| ->%list_elem_of_singleton]%elem_of_app]
          %elem_of_tags_of_pair; [|done].
        apply Hub. by apply elem_of_tags_of_pair.
    + rewrite lookup_insert_eq. simpl. simpl in IHx. split; [eauto|].
      intros t [Hdp [Ht| ->%list_elem_of_singleton]%elem_of_app]
        %elem_of_tags_of_pair; [|apply beats_irrefl].
      by destruct (IHx t Ht).
Qed.

End Extreme.

(** ** Facts about SetupSlackCrit *)
Section SetupFacts.
Variable safe : bool.
Variable nl : AtomNetlist.
Variable lk : AtomLookup.
Variable calc :
  gmap DomainPair float → gmap DomainPair float → list TimingTag →
  outcome float.

Import SetupSlackCrit.

Local Abbreviation slack_value := (setup_slack_value safe lk).
Local Abbreviation crit_value := (setup_crit_value safe lk calc).

Lemma update_pin_slack_write (an : SetupTimingAnalyzer) (node : NodeId)
  (v : list float) :
  update_pin_slack safe lk node an v
  = write_body (tnode_atom_pin lk) (slack_value an) node v.
Proof.
  unfold update_pin_slack, write_body, setup_slack_value, VTR_ASSERT_SAFE,
    min_time_or_infinity.
  destruct (check safe _); simpl; try done.
  by destruct (find_minimum_tag _).
Qed.

Lemma update_pin_criticality_write (an : SetupTimingAnalyzer)
  (mr ws : gmap DomainPair float) (node : NodeId) (v : list float) :
  update_pin_criticality safe lk calc an mr ws node v
  = write_body (tnode_atom_pin lk) (crit_value an mr ws) node v.
Proof.
  unfold update_pin_criticality, write_body, setup_crit_value, VTR_ASSERT_SAFE.
  destruct (check safe _); simpl; done.
Qed.

Lemma slack_loop_write (an : SetupTimingAnalyzer) (ns : list NodeId)
  (v : list float) :
  for_each ns (fun node => update_pin_slack safe lk node an) v
  = for_each ns (write_body (tnode_atom_pin lk) (slack_value an)) v.
Proof. apply for_each_ext. intros. apply update_pin_slack_write. Qed.

Lemma crit_loop_write (an : SetupTimingAnalyzer)
  (mr ws : gmap DomainPair float) (ns : list NodeId) (v : list float) :
  for_each ns (update_pin_criticality safe lk calc an mr ws) v
  = for_each ns (write_body (tnode_atom_pin lk) (crit_value an mr ws)) v.
Proof. apply for_each_ext. intros. apply update_pin_criticality_write. Qed.

Lemma update_slacks_Ok (an : SetupTimingAnalyzer) (st st' : t) :
  update_slacks safe lk an st = Ok st' ↔
  ∃ slacks,
    for_each (modified_nodes an)
      (write_body (tnode_atom_pin lk) (slack_value an)) (pin_slacks_ st)
    = Ok slacks
    ∧ st' = {| pin_slacks_ := slacks;
               pin_criticalities_ := pin_criticalities_ st;
               pins_with_modified_slacks_ :=
                 tnode_atom_pin lk <$> modified_nodes an;
               pins_with_modified_criticalities_ :=
                 pins_with_modified_criticalities_ st;
               prev_max_req_ := prev_max_req_ st;
               prev_worst_slack_ := prev_worst_slack_ st |}.
Proof.
  unfold update_slacks. rewrite bind_Ok, nodes_to_pins_map. simpl.
  setoid_rewrite slack_loop_write.
  split; intros (sl & Hloop & Hst); exists sl; split; congruence.
Qed.

(** C3, as amended. [update_slacks] returns when every modified node has
    a valid pin inside the slack array. When it returns, each modified node
    has such a pin, and the modified-slack pins are the node-to-pin lookup
    applied to each modified node, in order and one entry per node; nothing
    is filtered out or de-duplicated by the code. The sequence is free of
    duplicates, and is the pin projection of the design document, when the
    modified nodes are distinct and the lookup is injective on them. *)
Theorem modified_slack_pins_are_mapped_nodes
  (an : SetupTimingAnalyzer) (st : t) :
  ((∀ n, n ∈ modified_nodes an →
      ∃ i, tnode_atom_pin lk n = Some i ∧ i < length (pin_slacks_ st)) →
   ∃ st', update_slacks safe lk an st = Ok st')
  ∧ ∀ st',
      update_slacks safe lk an st = Ok st' →
      pins_with_modified_slack st' = (tnode_atom_pin lk <$> modified_nodes an)
      ∧ (∀ n, n ∈ modified_nodes an →
           ∃ i, tnode_atom_pin lk n = Some i ∧ i < length (pin_slacks_ st))
      ∧ (NoDup (modified_nodes an) →
         lookup_injective_on lk (modified_nodes an) →
         NoDup (pins_with_modified_slack st')
         ∧ pins_with_modified_slack st'
           = pin_projection lk (modified_nodes an)).
Proof.
  split.
  - intros Hin.
    destruct (write_loop_total (tnode_atom_pin lk) (slack_value an)
                (modified_nodes an) (pin_slacks_ st)) as [sl Hsl].
    { intros n Hn. destruct (Hin n Hn) as (i & Hpin & Hi).
      exists i, (min_time_or_infinity (setup_slacks an n)).
      split; [done|]. split; [done|].
      unfold setup_slack_value. by rewrite Hpin, check_pass. }
    eexists. apply update_slacks_Ok. eauto.
  - intros st' (sl & Hloop & ->)%update_slacks_Ok. simpl.
    assert (Hvalid : ∀ n, n ∈ modified_nodes an →
              ∃ i, tnode_atom_pin lk n = Some i
                   ∧ i < length (pin_slacks_ st)).
    { intros n Hn.
      destruct (write_loop_elem _ _ _ _ _ n Hloop Hn) as (i & c & ? & ? & _).
      eauto. }
    split; [done|]. split; [done|].
    intros Hnd Hinj.
    assert (Hnd' : NoDup (tnode_atom_pin lk <$> modified_nodes an)).
    { apply NoDup_fmap_2_strong; [|done]. intros x y. apply Hinj. }
    split; [done|].
    unfold pin_projection. rewrite filter_all_true.
    + by rewrite remove_dups_NoDup.
    + intros p (n & -> & Hn)%list_elem_of_fmap.
      destruct (Hvalid n Hn) as (i & -> & _). eauto.
Qed.

(** *** The aggregation loop *)

Lemma record_max_req_extreme (m : gmap DomainPair float) (tag : TimingTag) :
  record_max_req m tag = record_extreme flt m tag.
Proof. done. Qed.

Lemma record_worst_slack_Ok (tag : TimingTag) (w w' : gmap DomainPair float) :
  record_worst_slack safe tag w = Ok w' →
  w' = record_extreme (fun cur new => flt new cur) w tag.
Proof.
  unfold record_worst_slack, record_extreme, domain_pair_of, VTR_ASSERT_SAFE.
  intros (_ & _ & (_ & _ & H)%bind_Ok)%bind_Ok.
  destruct (w !! _); [destruct (flt _ _)|]; congruence.
Qed.

Lemma record_worst_slack_total (tag : TimingTag) (w : gmap DomainPair float) :
  (safe = true → isfinite (time tag) = true) →
  record_worst_slack safe tag w
  = Ok (record_extreme (fun cur new => flt new cur) w tag).
Proof.
  intros Hfin.
  unfold record_worst_slack, record_extreme, domain_pair_of, VTR_ASSERT_SAFE.
  destruct safe.
  - specialize (Hfin eq_refl). rewrite Hfin.
    assert (isnan (time tag) = false) as -> by (by destruct (time tag)).
    simpl. destruct (w !! _); [destruct (flt _ _)|]; done.
  - simpl. destruct (w !! _); [destruct (flt _ _)|]; done.
Qed.

Lemma worst_slack_loop_Ok (tags : list TimingTag)
  (w w' : gmap DomainPair float) :
  for_each tags (record_worst_slack safe) w = Ok w' →
  w' = fold_left (record_extreme (fun cur new => flt new cur)) tags w.
Proof.
  revert w. induction tags as [|x tags IH]; intros w; simpl.
  - congruence.
  - intros (w1 & ->%record_worst_slack_Ok & Hrest)%bind_Ok. by apply IH.
Qed.

Lemma worst_slack_loop_total (tags : list TimingTag)
  (w : gmap DomainPair float) :
  (safe = true → ∀ t, t ∈ tags → isfinite (time t) = true) →
  for_each tags (record_worst_slack safe) w
  = Ok (fold_left (record_extreme (fun cur new => flt new cur)) tags w).
Proof.
  revert w. induction tags as [|x tags IH]; intros w Hfin; simpl; [done|].
  rewrite record_worst_slack_total by (intros Hs; apply Hfin; [done|by left]).
  simpl. apply IH. intros Hs t Ht. apply Hfin; [done|by right].
Qed.

Lemma aggregate_loop (an : SetupTimingAnalyzer) (ns : list NodeId)
  (acc : gmap DomainPair float * gmap DomainPair float) :
  for_each ns (aggregate_node safe an) acc
  = do w <- for_each (flat_map (setup_slacks an) ns)
                     (record_worst_slack safe) acc.2;
    Ok (fold_left record_max_req
          (flat_map (fun n => setup_tags an n DATA_REQUIRED) ns) acc.1, w).
Proof.
  revert acc. induction ns as [|n ns IH]; intros [m w]; simpl; [done|].
  unfold aggregate_node at 1. simpl.
  rewrite for_each_app, fold_left_app.
  destruct (for_each (setup_slacks an n) (record_worst_slack safe) w);
    simpl; [|done..].
  by rewrite IH.
Qed.

Lemma aggregate_Ok (tg : TimingGraph) (an : SetupTimingAnalyzer)
  (mr ws : gmap DomainPair float) :
  aggregate safe tg an = Ok (mr, ws) →
  mr = fold_left (record_extreme flt) (required_tags tg an) ∅
  ∧ ws = fold_left (record_extreme (fun cur new => flt new cur))
           (output_slack_tags tg an) ∅.
Proof.
  unfold aggregate. rewrite aggregate_loop. simpl.
  intros (w & Hw%worst_slack_loop_Ok & [= <- <-])%bind_Ok. done.
Qed.

Lemma greatest_time_extreme (tags : list TimingTag) (v : float) :
  greatest_time tags v ↔ extreme_time flt tags v.
Proof. done. Qed.

Lemma least_time_extreme (tags : list TimingTag) (v : float) :
  least_time tags v ↔ extreme_time (fun cur new => flt new cur) tags v.
Proof. done. Qed.

(** C7. The first loop of [update_criticalities] visits the required-time
    and the setup-slack tags of the logical outputs only. It returns (given
    finite slacks where [VTR_ASSERT_SAFE] is compiled in), and then, for
    every domain pair: [max_req] has an entry exactly when some visited
    required-time tag is filed under the pair, and the entry is the time of
    such a tag that none of them exceeds; [worst_slack] has an entry
    exactly when some visited slack tag is filed under the pair, and the
    entry is the time of such a tag that none of them is below. *)
Theorem aggregates_are_extremes (tg : TimingGraph) (an : SetupTimingAnalyzer) :
  (safe = true → ∀ t, t ∈ output_slack_tags tg an → isfinite (time t) = true) →
  ∃ mr ws,
    aggregate safe tg an = Ok (mr, ws)
    ∧ ∀ dp,
        aggregate_entry greatest_time (required_tags tg an) dp (mr !! dp)
        ∧ aggregate_entry least_time (output_slack_tags tg an) dp (ws !! dp).
Proof.
  intros Hfin.
  exists (fold_left (record_extreme flt) (required_tags tg an) ∅),
    (fold_left (record_extreme (fun cur new => flt new cur))
       (output_slack_tags tg an) ∅).
  split.
  - unfold aggregate. rewrite aggregate_loop. simpl.
    fold (output_slack_tags tg an). by rewrite worst_slack_loop_total.
  - intros dp. split.
    + apply (record_extreme_fold flt flt_irrefl flt_trans).
    + apply (record_extreme_fold (fun cur new => flt new cur)).
      * intros x. apply flt_irrefl.
      * intros x y z Hxy Hyz. by apply (flt_trans z y x).
Qed.

(** *** The criticality update *)

Lemma processed_nodes_same (tg : TimingGraph) (an : SetupTimingAnalyzer)
  (mr ws : gmap DomainPair float) (st : t) :
  maps_equal mr (prev_max_req_ st) ∧ maps_equal ws (prev_worst_slack_ st) →
  processed_nodes tg an mr ws st = modified_nodes an.
Proof.
  intros [H1%map_eqb_spec H2%map_eqb_spec]. unfold processed_nodes.
  by rewrite H1, H2.
Qed.

Lemma processed_nodes_changed (tg : TimingGraph) (an : SetupTimingAnalyzer)
  (mr ws : gmap DomainPair float) (st : t) :
  ¬ (maps_equal mr (prev_max_req_ st) ∧ maps_equal ws (prev_worst_slack_ st)) →
  processed_nodes tg an mr ws st = nodes tg.
Proof.
  intros Hne. unfold processed_nodes.
  destruct (map_eqb mr _ && map_eqb ws _) eqn:E; [|done].
  exfalso. apply Hne. apply andb_true_iff in E as [H1 H2].
  by rewrite <- !map_eqb_spec.
Qed.

Lemma update_criticalities_Ok (tg : TimingGraph) (an : SetupTimingAnalyzer)
  (st st' : t) :
  update_criticalities safe lk calc tg an st = Ok st' ↔
  ∃ mr ws crits,
    aggregate safe tg an = Ok (mr, ws)
    ∧ for_each (processed_nodes tg an mr ws st)
        (update_pin_criticality safe lk calc an mr ws) (pin_criticalities_ st)
      = Ok crits
    ∧ st' = {| pin_slacks_ := pin_slacks_ st;
               pin_criticalities_ := crits;
               pins_with_modified_slacks_ := pins_with_modified_slacks_ st;
               pins_with_modified_criticalities_ :=
                 tnode_atom_pin lk <$> processed_nodes tg an mr ws st;
               prev_max_req_ := mr;
               prev_worst_slack_ := ws |}.
Proof.
  unfold update_criticalities, processed_nodes. rewrite bind_Ok. split.
  - intros ([mr ws] & Hagg & Hrest). simpl in Hrest.
    exists mr, ws.
    destruct (map_eqb mr _ && map_eqb ws _);
      apply bind_Ok in Hrest as (crits & Hloop & [= <-]);
      exists crits; rewrite nodes_to_pins_map; done.
  - intros (mr & ws & crits & Hagg & Hloop & ->).
    exists (mr, ws). split; [done|]. simpl.
    destruct (map_eqb mr _ && map_eqb ws _);
      rewrite Hloop; simpl; by rewrite nodes_to_pins_map.
Qed.

(** What one criticality loop does to the array: entries that are the pin
    of none of its nodes are kept, and the pin of each of its nodes holds
    the value computed for a node with that pin. *)
Lemma criticality_loop_effect (an : SetupTimingAnalyzer)
  (mr ws : gmap DomainPair float) (ns : list NodeId) (v v' : list float) :
  for_each ns (update_pin_criticality safe lk calc an mr ws) v = Ok v' →
  entries_kept lk ns v v' ∧ entries_recomputed lk calc an mr ws ns v'.
Proof.
  rewrite crit_loop_write. intros Hloop. split.
  - intros i Hno. by eapply write_loop_frame.
  - intros n Hn.
    destruct (write_loop_elem _ _ _ _ _ n Hloop Hn) as (i & c0 & Hpin & _ & _).
    destruct (write_loop_written _ _ _ _ _ n i Hloop Hn Hpin)
      as (y & c & Hy & Hpy & Hgy & Hv).
    exists i, y, c. do 3 (split; [done|]). split; [|split; [done|]].
    + unfold setup_crit_value in Hgy.
      apply bind_Ok in Hgy as (_ & _ & Hgy).
      unfold calc_pin_criticality in Hgy. exact Hgy.
    + intros Hinj. apply Hinj; congruence.
Qed.

(** C1. A criticality update that returns has computed the two aggregates.
    If both are value-equal to the stored ones (same keys, [==] times),
    criticality is recomputed for the nodes of [analyzer.modified_nodes()]
    only: the pin of each of them holds the value
    [calc_relaxed_criticality] returned on the fresh aggregates for the
    setup-slack tags of a modified node with that pin, entries that are
    the pin of none of them are untouched, and the modified-criticality
    pins are the pins of these nodes. If either aggregate differs in a key
    or a value, the same holds with every node of the timing graph in
    place of the modified nodes. *)
Theorem criticality_recompute_strategy (tg : TimingGraph)
  (an : SetupTimingAnalyzer) (st st' : t) :
  update_criticalities safe lk calc tg an st = Ok st' →
  ∃ mr ws,
    aggregate safe tg an = Ok (mr, ws)
    ∧ (maps_equal mr (prev_max_req_ st)
       ∧ maps_equal ws (prev_worst_slack_ st) →
       for_each (modified_nodes an)
         (update_pin_criticality safe lk calc an mr ws)
         (pin_criticalities_ st)
       = Ok (pin_criticalities_ st')
       ∧ entries_recomputed lk calc an mr ws (modified_nodes an)
           (pin_criticalities_ st')
       ∧ entries_kept lk (modified_nodes an)
           (pin_criticalities_ st) (pin_criticalities_ st')
       ∧ pins_with_modified_criticality st'
         = (tnode_atom_pin lk <$> modified_nodes an))
    ∧ (¬ (maps_equal mr (prev_max_req_ st)
          ∧ maps_equal ws (prev_worst_slack_ st)) →
       for_each (nodes tg)
         (update_pin_criticality safe lk calc an mr ws)
         (pin_criticalities_ st)
       = Ok (pin_criticalities_ st')
       ∧ entries_recomputed lk calc an mr ws (nodes tg)
           (pin_criticalities_ st')
       ∧ entries_kept lk (nodes tg)
           (pin_criticalities_ st) (pin_criticalities_ st')
       ∧ pins_with_modified_criticality st'
         = (tnode_atom_pin lk <$> nodes tg)).
Proof.
  intros (mr & ws & crits & Hagg & Hloop & ->)%update_criticalities_Ok.
  exists mr, ws. split; [done|]. simpl. split.
  - intros Hsame. rewrite processed_nodes_same in * by done.
    destruct (criticality_loop_effect an mr ws _ _ _ Hloop) as [Hkept Hrec].
    done.
  - intros Hdiff. rewrite processed_nodes_changed in * by done.
    destruct (criticality_loop_effect an mr ws _ _ _ Hloop) as [Hkept Hrec].
    done.
Qed.


(** *** Repeating an update *)

Lemma processed_nodes_prev (tg : TimingGraph) (an : SetupTimingAnalyzer)
  (mr ws : gmap DomainPair float) (st1 st2 : t) :
  prev_max_req_ st1 = prev_max_req_ st2 →
  prev_worst_slack_ st1 = prev_worst_slack_ st2 →
  processed_nodes tg an mr ws st1 = processed_nodes tg an mr ws st2.
Proof. unfold processed_nodes. by intros -> ->. Qed.

(** Once the aggregates are the stored ones, a second criticality loop
    finds every value it writes already in place. *)
Lemma second_criticality_loop (tg : TimingGraph) (an : SetupTimingAnalyzer)
  (mr ws : gmap DomainPair float) (s0 s1 : t) (v cr : list float) :
  lookup_injective_on lk (nodes tg) →
  (∀ n, n ∈ modified_nodes an → n ∈ nodes tg) →
  prev_max_req_ s1 = mr → prev_worst_slack_ s1 = ws →
  for_each (processed_nodes tg an mr ws s0)
    (write_body (tnode_atom_pin lk) (crit_value an mr ws)) v = Ok cr →
  for_each (processed_nodes tg an mr ws s1)
    (write_body (tnode_atom_pin lk) (crit_value an mr ws)) cr = Ok cr.
Proof.
  intros Hinj Hsub Hmr Hws Hloop.
  unfold processed_nodes in *. rewrite Hmr, Hws.
  destruct (map_eqb mr (prev_max_req_ s0)) eqn:E1;
    [destruct (map_eqb ws (prev_worst_slack_ s0)) eqn:E2|]; simpl in Hloop.
  - rewrite (map_eqb_self _ _ E1), (map_eqb_self _ _ E2). simpl.
    by eapply write_loop_idemp.
  - destruct (map_eqb mr mr && map_eqb ws ws);
      [|by eapply write_loop_idemp].
    apply write_loop_in_place. intros n Hn.
    pose proof (Hsub n Hn) as Hn'.
    destruct (write_loop_elem _ _ _ _ _ n Hloop Hn') as (i & c0 & Hpin & _ & _).
    destruct (write_loop_written _ _ _ _ _ n i Hloop Hn' Hpin)
      as (y & c & Hy & Hpy & Hgy & Hv).
    assert (y = n) as -> by (apply Hinj; congruence). eauto.
  - destruct (map_eqb mr mr && map_eqb ws ws);
      [|by eapply write_loop_idemp].
    apply write_loop_in_place. intros n Hn.
    pose proof (Hsub n Hn) as Hn'.
    destruct (write_loop_elem _ _ _ _ _ n Hloop Hn') as (i & c0 & Hpin & _ & _).
    destruct (write_loop_written _ _ _ _ _ n i Hloop Hn' Hpin)
      as (y & c & Hy & Hpy & Hgy & Hv).
    assert (y = n) as -> by (apply Hinj; congruence). eauto.
Qed.

(** C8, as amended. With the analyzer and the timing graph fixed, the
    modified nodes among the graph's nodes and distinct nodes on distinct
    pins: after a call of [update_slacks_and_criticalities] that returns, a
    second call returns too and leaves the slack and the criticality array
    exactly as the first left them; both calls give the pins of
    [analyzer.modified_nodes()] as the modified-slack pins. The
    modified-criticality pins of a call are the pins of the node set that
    call processed: the modified nodes when the aggregates equal the ones
    stored before the call, all nodes of the graph otherwise; the second
    call compares against the aggregates the first one stored. *)
Theorem repeated_update_keeps_arrays (tg : TimingGraph)
  (an : SetupTimingAnalyzer) (s0 s1 : t) :
  lookup_injective_on lk (nodes tg) →
  (∀ n, n ∈ modified_nodes an → n ∈ nodes tg) →
  update_slacks_and_criticalities safe lk calc tg an s0 = Ok s1 →
  ∃ s2 mr ws,
    update_slacks_and_criticalities safe lk calc tg an s1 = Ok s2
    ∧ aggregate safe tg an = Ok (mr, ws)
    ∧ pin_slacks_ s2 = pin_slacks_ s1
    ∧ pin_criticalities_ s2 = pin_criticalities_ s1
    ∧ pins_with_modified_slack s1 = (tnode_atom_pin lk <$> modified_nodes an)
    ∧ pins_with_modified_slack s2 = (tnode_atom_pin lk <$> modified_nodes an)
    ∧ pins_with_modified_criticality s1
      = (tnode_atom_pin lk <$> processed_nodes tg an mr ws s0)
    ∧ pins_with_modified_criticality s2
      = (tnode_atom_pin lk <$> processed_nodes tg an mr ws s1)
    ∧ prev_max_req_ s1 = mr ∧ prev_worst_slack_ s1 = ws.
Proof.
  intros Hinj Hsub Hrun. unfold update_slacks_and_criticalities in *.
  apply bind_Ok in Hrun as (sa & Hsl & Hcr).
  apply update_slacks_Ok in Hsl as (sl & Hsl & ->).
  apply update_criticalities_Ok in Hcr as (mr & ws & cr & Hagg & Hcr & ->).
  simpl in *. rewrite crit_loop_write in Hcr.
  rewrite (processed_nodes_prev tg an mr ws _ s0) in * by done.
  set (s1 := {| pin_slacks_ := sl; pin_criticalities_ := cr;
    pins_with_modified_slacks_ := tnode_atom_pin lk <$> modified_nodes an;
    pins_with_modified_criticalities_ :=
      tnode_atom_pin lk <$> processed_nodes tg an mr ws s0;
    prev_max_req_ := mr; prev_worst_slack_ := ws |}).
  set (sb := {| pin_slacks_ := sl; pin_criticalities_ := cr;
    pins_with_modified_slacks_ := tnode_atom_pin lk <$> modified_nodes an;
    pins_with_modified_criticalities_ := pins_with_modified_criticalities_ s1;
    prev_max_req_ := mr; prev_worst_slack_ := ws |}).
  assert (Hsb : update_slacks safe lk an s1 = Ok sb).
  { apply update_slacks_Ok. exists sl. split; [|done]. simpl.
    by eapply write_loop_idemp. }
  assert (Hcr2 : for_each (processed_nodes tg an mr ws sb)
           (write_body (tnode_atom_pin lk) (crit_value an mr ws)) cr = Ok cr).
  { by eapply (second_criticality_loop tg an mr ws s0 sb). }
  eexists _, mr, ws. split.
  - rewrite Hsb. simpl. apply update_criticalities_Ok.
    exists mr, ws, cr. split; [done|]. split; [|reflexivity].
    by rewrite crit_loop_write.
  - simpl. repeat split; try done.
Qed.

(** Every entry of the criticality array after an update is either the
    entry before it or the criticality computed for a processed node. *)
Lemma setup_criticality_entries (tg : TimingGraph) (an : SetupTimingAnalyzer)
  (st st' : t) (i : nat) :
  update_slacks_and_criticalities safe lk calc tg an st = Ok st' →
  pin_criticalities_ st' !! i = pin_criticalities_ st !! i
  ∨ ∃ mr ws n c,
      aggregate safe tg an = Ok (mr, ws)
      ∧ n ∈ processed_nodes tg an mr ws st
      ∧ tnode_atom_pin lk n = Some i
      ∧ calc mr ws (setup_slacks an n) = Ok c
      ∧ pin_criticalities_ st' !! i = Some c.
Proof.
  unfold update_slacks_and_criticalities.
  intros (sa & Hsl & Hcr)%bind_Ok.
  apply update_slacks_Ok in Hsl as (sl & Hsl & ->).
  apply update_criticalities_Ok in Hcr as (mr & ws & cr & Hagg & Hcr & ->).
  simpl in *. rewrite crit_loop_write in Hcr.
  rewrite (processed_nodes_prev tg an mr ws _ st) in * by done.
  destruct (write_loop_cases _ _ _ _ _ i Hcr)
    as [Hsame|(n & c & Hn & Hpin & Hg & Hv)]; [by left|right].
  exists mr, ws, n, c. repeat split; try done.
  unfold setup_crit_value in Hg.
  by apply bind_Ok in Hg as (_ & _ & Hg).
Qed.

(** A slack update of a node that returns has stored, at the node's pin,
    the slack of its tags. *)
Lemma setup_update_pin_slack_Ok (an : SetupTimingAnalyzer) (node : NodeId)
  (v v' : list float) :
  update_pin_slack safe lk node an v = Ok v' →
  ∃ i, tnode_atom_pin lk node = Some i ∧ i < length v
       ∧ v' = <[i := min_time_or_infinity (setup_slacks an node)]> v.
Proof.
  rewrite update_pin_slack_write. unfold write_body, setup_slack_value.
  intros (c & (_ & _ & [= <-])%bind_Ok & Hset)%bind_Ok.
  by apply vec_set_Ok in Hset.
Qed.

Lemma setup_update_pin_slack_total (an : SetupTimingAnalyzer) (node : NodeId)
  (v : list float) (i : nat) :
  tnode_atom_pin lk node = Some i → i < length v →
  update_pin_slack safe lk node an v
  = Ok (<[i := min_time_or_infinity (setup_slacks an node)]> v).
Proof.
  intros Hpin Hi. rewrite update_pin_slack_write.
  unfold write_body, setup_slack_value. rewrite Hpin. simpl.
  rewrite check_pass. simpl. by rewrite decide_True.
Qed.

End SetupFacts.

(** ** Facts about HoldSlackCrit *)
Section HoldFacts.
Variable on : bool.
Variable nl : AtomNetlist.
Variable lk : AtomLookup.

Import HoldSlackCrit.

Lemma hold_update_pin_slack_write (an : HoldTimingAnalyzer) (pin : AtomPinId)
  (v : list float) :
  update_pin_slack on lk an pin v
  = write_body id (hold_slack_value on lk an) pin v.
Proof.
  unfold update_pin_slack, write_body, hold_slack_value, VTR_ASSERT,
    min_time_or_infinity.
  destruct (check on _); simpl; try done.
  by destruct (find_minimum_tag _).
Qed.

Lemma hold_slack_loop_write (an : HoldTimingAnalyzer) (ps : list AtomPinId)
  (v : list float) :
  for_each ps (update_pin_slack on lk an) v
  = for_each ps (write_body id (hold_slack_value on lk an)) v.
Proof. apply for_each_ext. intros. apply hold_update_pin_slack_write. Qed.

Lemma hold_update_slacks_Ok (an : HoldTimingAnalyzer) (st st' : t) :
  update_slacks on nl lk an st = Ok st' ↔
  ∃ slacks,
    for_each (pins nl) (write_body id (hold_slack_value on lk an))
      (pin_slacks_ st) = Ok slacks
    ∧ st' = {| pin_slacks_ := slacks;
               pin_criticalities_ := pin_criticalities_ st |}.
Proof.
  unfold update_slacks. rewrite bind_Ok.
  setoid_rewrite hold_slack_loop_write.
  split; intros (sl & Hloop & Hst); exists sl; split; congruence.
Qed.

Lemma hold_update_criticalities_Ok (tg : TimingGraph)
  (an : HoldTimingAnalyzer) (st st' : t) :
  update_criticalities on nl lk tg an st = Ok st' ↔
  ∃ crits,
    for_each (pins nl)
      (write_body id (fun pin =>
         calc_pin_criticality on lk pin an
           (calc_scale (scan_slacks tg an).1 (scan_slacks tg an).2)
           (fopp (scan_slacks tg an).1)))
      (pin_criticalities_ st) = Ok crits
    ∧ st' = {| pin_slacks_ := pin_slacks_ st;
               pin_criticalities_ := crits |}.
Proof.
  unfold update_criticalities. rewrite bind_Ok.
  split; intros (cr & Hloop & Hst); exists cr; (split; [exact Hloop|]);
    congruence.
Qed.

(** With [id] as the pin of an element, the entry of every element of a
    loop that returns holds that element's value. *)
Lemma pin_loop_entry (g : AtomPinId → outcome float) (ps : list AtomPinId)
  (v v' : list float) (pin : AtomPinId) :
  for_each ps (write_body id g) v = Ok v' → pin ∈ ps →
  ∃ i c, pin = Some i ∧ i < length v ∧ g pin = Ok c ∧ v' !! i = Some c.
Proof.
  intros Hloop Hpin.
  destruct (write_loop_elem _ _ _ _ _ pin Hloop Hpin) as (i & c0 & Hi & Hlt & _).
  destruct (write_loop_written _ _ _ _ _ pin i Hloop Hpin Hi)
    as (y & c & _ & Hy & Hg & Hv).
  unfold id in Hi, Hy. subst. eauto 10.
Qed.

Lemma hold_calc_pin_criticality_Ok (pin : AtomPinId)
  (an : HoldTimingAnalyzer) (scale shift c : float) :
  calc_pin_criticality on lk pin an scale shift = Ok c ↔
  c = max_tag_criticality scale shift (hold_slacks an (atom_pin_tnode lk pin))
  ∧ (on = true →
     id_valid (atom_pin_tnode lk pin) = true
     ∧ fle zero c = true ∧ fle c one = true).
Proof.
  unfold calc_pin_criticality, VTR_ASSERT.
  set (m := max_tag_criticality scale shift _).
  rewrite bind_Ok. setoid_rewrite bind_Ok. setoid_rewrite bind_Ok.
  setoid_rewrite check_Ok. split.
  - intros (_ & H1 & _ & H2 & _ & H3 & [= <-]). split; [done|]. auto.
  - intros [-> H]. exists tt. split; [intros Ho; by apply H|].
    exists tt. split; [intros Ho; by apply H|].
    exists tt. split; [intros Ho; by apply H|]. done.
Qed.

(** *** The global scan *)

Lemma scan_tags_split (tags : list TimingTag) (acc : float * float) :
  fold_left scan_tag tags acc
  = (fold_left (fun w t => std_min w (time t)) tags acc.1,
     fold_left (fun b t => std_max b (time t)) tags acc.2).
Proof.
  revert acc. induction tags as [|x tags IH]; intros [w b]; simpl; [done|].
  by rewrite IH.
Qed.

Lemma scan_slacks_flat (tg : TimingGraph) (an : HoldTimingAnalyzer) :
  scan_slacks tg an
  = fold_left scan_tag (all_hold_tags tg an) (infinity, neg_infinity).
Proof.
  unfold scan_slacks, all_hold_tags.
  generalize (infinity, neg_infinity).
  induction (nodes tg) as [|n ns IH]; intros acc; simpl; [done|].
  by rewrite fold_left_app, IH.
Qed.

(** [worst_slack] is below no tag and [best_slack] above none; each is
    its start value or the time of a tag. *)
Lemma scan_slacks_spec (tg : TimingGraph) (an : HoldTimingAnalyzer) :
  let worst := (scan_slacks tg an).1 in
  let best := (scan_slacks tg an).2 in
  (∀ t, t ∈ all_hold_tags tg an → flt (time t) worst = false)
  ∧ (worst = infinity ∨ ∃ t, t ∈ all_hold_tags tg an ∧ worst = time t)
  ∧ (∀ t, t ∈ all_hold_tags tg an → flt best (time t) = false)
  ∧ (best = neg_infinity ∨ ∃ t, t ∈ all_hold_tags tg an ∧ best = time t).
Proof.
  rewrite scan_slacks_flat, scan_tags_split. simpl.
  destruct (running_min time (all_hold_tags tg an) infinity) as (H1 & H2 & _).
  destruct (running_max time (all_hold_tags tg an) neg_infinity)
    as (H3 & H4 & _).
  done.
Qed.

(** *** The per-pin maximum *)

Lemma max_tag_criticality_spec (scale shift : float) (tags : list TimingTag) :
  let c := max_tag_criticality scale shift tags in
  let tc := fun t => tag_criticality scale shift (time t) in
  (∀ t, t ∈ tags → flt c (tc t) = false)
  ∧ (c = zero ∨ ∃ t, t ∈ tags ∧ c = tc t)
  ∧ flt c zero = false
  ∧ ((∃ t, t ∈ tags ∧ fle zero (tc t) = true) →
     ∃ t, t ∈ tags ∧ (c = tc t ∨ feq c (tc t) = true)).
Proof.
  unfold max_tag_criticality. simpl.
  destruct (running_max (fun t => tag_criticality scale shift (time t))
              tags zero) as (Hatt & Hub & Hlow).
  set (c := fold_left _ tags zero) in *.
  split; [done|]. split; [by destruct Hatt as [?|(t & ? & ?)]; eauto|].
  split; [done|].
  intros (t0 & Ht0 & Hge).
  destruct Hatt as [Hz|(t & Ht & Hc)]; [|by eauto].
  exists t0. split; [done|]. right.
  rewrite Hz. apply fle_not_flt_feq; [done|]. rewrite <- Hz. by apply Hub.
Qed.

Lemma max_tag_criticality_nil (scale shift : float) :
  max_tag_criticality scale shift [] = zero.
Proof. done. Qed.

(** After a criticality update that returns, the entry of every pin of
    the netlist is the running maximum over the tags of the pin's node,
    within [0, 1] where [VTR_ASSERT] is compiled in. *)
Lemma hold_criticality_entry (tg : TimingGraph) (an : HoldTimingAnalyzer)
  (st st' : t) (pin : AtomPinId) :
  update_criticalities on nl lk tg an st = Ok st' → pin ∈ pins nl →
  ∃ i, pin = Some i
       ∧ pin_criticalities_ st' !! i
         = Some (max_tag_criticality
                   (calc_scale (scan_slacks tg an).1 (scan_slacks tg an).2)
                   (fopp (scan_slacks tg an).1)
                   (hold_slacks an (atom_pin_tnode lk pin)))
       ∧ (on = true →
          in_unit_interval
            (max_tag_criticality
               (calc_scale (scan_slacks tg an).1 (scan_slacks tg an).2)
               (fopp (scan_slacks tg an).1)
               (hold_slacks an (atom_pin_tnode lk pin)))).
Proof.
  intros (cr & Hloop & ->)%hold_update_criticalities_Ok Hpin. simpl.
  destruct (pin_loop_entry _ _ _ _ pin Hloop Hpin)
    as (i & c & -> & _ & Hc & Hv).
  apply hold_calc_pin_criticality_Ok in Hc as [-> Hrange].
  exists i. split; [done|]. split; [done|].
  intros Hon. by destruct (Hrange Hon) as (_ & ? & ?).
Qed.

(** After a slack update that returns, the entry of every pin of the
    netlist is the slack of the tags of the pin's node. *)
Lemma hold_slack_entry (an : HoldTimingAnalyzer) (st st' : t)
  (pin : AtomPinId) :
  update_slacks on nl lk an st = Ok st' → pin ∈ pins nl →
  ∃ i, pin = Some i
       ∧ pin_slacks_ st' !! i
         = Some (min_time_or_infinity (hold_slacks an (atom_pin_tnode lk pin)))
       ∧ (on = true → id_valid (atom_pin_tnode lk pin) = true).
Proof.
  intros (sl & Hloop & ->)%hold_update_slacks_Ok Hpin. simpl.
  destruct (pin_loop_entry _ _ _ _ pin Hloop Hpin)
    as (i & c & -> & _ & Hc & Hv).
  unfold hold_slack_value in Hc.
  apply bind_Ok in Hc as (u & Hchk & [= <-]).
  exists i. split; [done|]. split; [done|].
  exact (proj1 (check_Ok _ _ _) Hchk).
Qed.

Lemma hold_update_both_Ok (tg : TimingGraph) (an : HoldTimingAnalyzer)
  (st st' : t) :
  update_slacks_and_criticalities on nl lk tg an st = Ok st' →
  ∃ st1, update_slacks on nl lk an st = Ok st1
         ∧ update_criticalities on nl lk tg an st1 = Ok st'
         ∧ pin_slacks_ st' = pin_slacks_ st1.
Proof.
  unfold update_slacks_and_criticalities.
  intros (st1 & Hsl & Hcr)%bind_Ok. exists st1. split; [done|]. split; [done|].
  by apply hold_update_criticalities_Ok in Hcr as (cr & _ & ->).
Qed.

Lemma hold_criticality_in_range (tg : TimingGraph)
  (an : HoldTimingAnalyzer) (st st' : t) (pin : AtomPinId) :
  on = true →
  update_slacks_and_criticalities on nl lk tg an st = Ok st' →
  pin ∈ pins nl →
  ∃ i c, pin = Some i ∧ pin_criticalities_ st' !! i = Some c
         ∧ in_unit_interval c.
Proof.
  intros Hon (st1 & _ & Hcr & _)%hold_update_both_Ok Hpin.
  destruct (hold_criticality_entry tg an st1 st' pin Hcr Hpin)
    as (i & -> & Hv & Hr).
  exists i. eexists. split; [done|]. split; [exact Hv|]. by apply Hr.
Qed.

(** *** Pins without a timing node *)

Lemma hold_slack_value_invalid (an : HoldTimingAnalyzer) (pin : AtomPinId) :
  on = true → atom_pin_tnode lk pin = INVALID →
  hold_slack_value on lk an pin = AssertionFailure.
Proof. intros -> Hnode. unfold hold_slack_value. by rewrite Hnode. Qed.

Lemma hold_slack_value_valid (an : HoldTimingAnalyzer) (pin : AtomPinId) :
  id_valid (atom_pin_tnode lk pin) = true →
  hold_slack_value on lk an pin
  = Ok (min_time_or_infinity (hold_slacks an (atom_pin_tnode lk pin))).
Proof.
  intros Hv. unfold hold_slack_value. by rewrite Hv, check_pass.
Qed.

Lemma hold_slack_value_in_bounds (an : HoldTimingAnalyzer) (pin : AtomPinId) :
  hold_slack_value on lk an pin ≠ OutOfBounds.
Proof.
  unfold hold_slack_value, check.
  by destruct (on && negb (id_valid (atom_pin_tnode lk pin))).
Qed.

(** C9. The hold slack update asks for the node of every pin of the
    netlist and asserts it valid. With [VTR_ASSERT] compiled in and a pin
    that has no timing node, [update_slacks] (and so
    [update_slacks_and_criticalities]) does not return: the pin is not
    skipped, and with every pin inside the slack array the call ends in the
    assertion failure. When every pin has a valid node, the assertion
    failure is unreachable, and the call returns when the pins are inside
    the array. *)
Theorem hold_update_requires_total_lookup (an : HoldTimingAnalyzer) (st : t) :
  (on = true →
   (∃ pin, pin ∈ pins nl ∧ atom_pin_tnode lk pin = INVALID) →
   (∀ st', update_slacks on nl lk an st ≠ Ok st')
   ∧ (∀ tg st', update_slacks_and_criticalities on nl lk tg an st ≠ Ok st')
   ∧ ((∀ pin, pin ∈ pins nl →
         ∃ i, pin = Some i ∧ i < length (pin_slacks_ st)) →
      update_slacks on nl lk an st = AssertionFailure))
  ∧ ((∀ pin, pin ∈ pins nl → id_valid (atom_pin_tnode lk pin) = true) →
     update_slacks on nl lk an st ≠ AssertionFailure
     ∧ ((∀ pin, pin ∈ pins nl →
           ∃ i, pin = Some i ∧ i < length (pin_slacks_ st)) →
        ∃ st', update_slacks on nl lk an st = Ok st')).
Proof.
  split.
  - intros Hon (pin & Hpin & Hnode).
    assert (Hno : ∀ st', update_slacks on nl lk an st ≠ Ok st').
    { intros st' (sl & Hloop & _)%hold_update_slacks_Ok.
      destruct (write_loop_elem _ _ _ _ _ pin Hloop Hpin)
        as (i & c & _ & _ & Hc).
      by rewrite hold_slack_value_invalid in Hc. }
    split; [done|]. split.
    + intros tg st' (st1 & Hsl & _)%hold_update_both_Ok. by apply Hno in Hsl.
    + intros Hin. unfold update_slacks.
      rewrite hold_slack_loop_write, write_loop_assert; [done|done| |].
      * intros x _. apply hold_slack_value_in_bounds.
      * exists pin. split; [done|]. by apply hold_slack_value_invalid.
  - intros Hvalid. split.
    + unfold update_slacks. rewrite hold_slack_loop_write.
      pose proof (write_loop_not_assert id (hold_slack_value on lk an)
                    (pins nl) (pin_slacks_ st)) as Hna.
      destruct (for_each _ _ _); simpl; try done.
      exfalso. apply Hna; [|done].
      intros x Hx. by rewrite hold_slack_value_valid by auto.
    + intros Hin.
      destruct (write_loop_total id (hold_slack_value on lk an) (pins nl)
                  (pin_slacks_ st)) as [sl Hsl].
      { intros x Hx. destruct (Hin x Hx) as (i & -> & Hi).
        exists i, (min_time_or_infinity (hold_slacks an (atom_pin_tnode lk (Some i)))).
        split; [done|]. split; [done|].
        apply hold_slack_value_valid. auto. }
      eexists. apply hold_update_slacks_Ok. eauto.
Qed.

(** C10. After a hold update that returns, for every pin of the netlist:
    the criticality is never below 0; a pin whose node carries no
    hold-slack tag has criticality exactly [0.] (the start of the running
    maximum) while its slack is [+infinity]; and tags whose criticality
    does not exceed 0, negative ones included, leave the result at [0.]. *)
Theorem untagged_pin_has_zero_hold_criticality (tg : TimingGraph)
  (an : HoldTimingAnalyzer) (st st' : t) (pin : AtomPinId) :
  update_slacks_and_criticalities on nl lk tg an st = Ok st' →
  pin ∈ pins nl →
  ∃ i c s,
    pin = Some i
    ∧ pin_criticalities_ st' !! i = Some c
    ∧ pin_slacks_ st' !! i = Some s
    ∧ flt c zero = false
    ∧ (hold_slacks an (atom_pin_tnode lk pin) = [] → c = zero ∧ s = infinity)
    ∧ ((∀ t, t ∈ hold_slacks an (atom_pin_tnode lk pin) →
          flt zero (tag_criticality
                      (calc_scale (scan_slacks tg an).1 (scan_slacks tg an).2)
                      (fopp (scan_slacks tg an).1) (time t)) = false) →
       c = zero).
Proof.
  intros (st1 & Hsl & Hcr & Hsame)%hold_update_both_Ok Hpin.
  destruct (hold_criticality_entry tg an st1 st' pin Hcr Hpin)
    as (i & -> & Hc & _).
  destruct (hold_slack_entry an st st1 (Some i) Hsl Hpin)
    as (i' & [= <-] & Hs & _).
  eexists i, _, _. split; [done|]. split; [exact Hc|].
  rewrite Hsame. split; [exact Hs|].
  destruct (max_tag_criticality_spec
              (calc_scale (scan_slacks tg an).1 (scan_slacks tg an).2)
              (fopp (scan_slacks tg an).1)
              (hold_slacks an (atom_pin_tnode lk (Some i))))
    as (_ & _ & Hlow & _).
  split; [done|]. split.
  - intros ->. done.
  - intros Hnone. unfold max_tag_criticality.
    by apply (running_max_stays
                (fun t => tag_criticality _ _ (time t))).
Qed.

End HoldFacts.

(** ** Statements over both evaluators *)

(** C6. A slack update of one node (setup) or one pin (hold) that returns
    has set the slack of the corresponding pin to [+infinity] when the
    node's slack-tag collection is empty, and otherwise to the time of one
    of these tags that none of them is below; and the update does return
    when the pin lies inside the slack array (for hold, with a valid
    node). *)
Theorem pin_slack_is_least_tag_time :
  (∀ safe lk an node v v',
     SetupSlackCrit.update_pin_slack safe lk node an v = Ok v' →
     ∃ i s, tnode_atom_pin lk node = Some i ∧ v' !! i = Some s
            ∧ slack_of_tags (setup_slacks an node) s)
  ∧ (∀ on lk an pin v v',
       HoldSlackCrit.update_pin_slack on lk an pin v = Ok v' →
       ∃ i s, pin = Some i ∧ v' !! i = Some s
              ∧ slack_of_tags (hold_slacks an (atom_pin_tnode lk pin)) s)
  ∧ (∀ safe lk an node v i,
       tnode_atom_pin lk node = Some i → i < length v →
       ∃ v', SetupSlackCrit.update_pin_slack safe lk node an v = Ok v')
  ∧ (∀ on lk an pin v i,
       pin = Some i → i < length v →
       id_valid (atom_pin_tnode lk pin) = true →
       ∃ v', HoldSlackCrit.update_pin_slack on lk an pin v = Ok v').
Proof.
  split; [|split; [|split]].
  - intros safe lk an node v v' (i & Hpin & Hi & ->)%setup_update_pin_slack_Ok.
    exists i, (min_time_or_infinity (setup_slacks an node)).
    split; [done|]. split; [by apply list_lookup_insert_eq|].
    apply min_time_or_infinity_spec.
  - intros on lk an pin v v'. rewrite hold_update_pin_slack_write.
    unfold write_body, hold_slack_value.
    intros (c & (_ & _ & [= <-])%bind_Ok & Hset)%bind_Ok.
    apply vec_set_Ok in Hset as (i & Hpin & Hi & ->). unfold id in Hpin.
    exists i, (min_time_or_infinity (hold_slacks an (atom_pin_tnode lk pin))).
    split; [done|]. split; [by apply list_lookup_insert_eq|].
    apply min_time_or_infinity_spec.
  - intros safe lk an node v i Hpin Hi. eexists.
    by apply setup_update_pin_slack_total.
  - intros on lk an pin v i -> Hi Hvalid. eexists.
    rewrite hold_update_pin_slack_write. unfold write_body, hold_slack_value.
    rewrite Hvalid, check_pass. simpl. unfold id. simpl.
    by rewrite decide_True.
Qed.

(** C5. In a hold criticality update that returns: [worst_slack] is below
    no hold-slack tag of the graph's nodes and [best_slack] above none
    (each the time of such a tag once moved from its start value);
    [scale = 1 / |best_slack - worst_slack|] and [shift = -worst_slack];
    and the criticality of each pin of the netlist is the maximum, started
    at [0.], over the hold-slack tags of its node of
    [1 - scale * (slack + shift)]: no tag's value exceeds it, it is one of
    these values or the start value, and it is one of them (up to [==])
    as soon as some tag's value is not negative. In the design with the two
    hold slacks [-2.0] and [3.0], the pin at [-2.0] gets [1.0] and the pin
    at [3.0] gets [0.0]. *)
Theorem hold_criticality_rescaling :
  (∀ on nl lk tg an st st',
     HoldSlackCrit.update_criticalities on nl lk tg an st = Ok st' →
     let worst := (HoldSlackCrit.scan_slacks tg an).1 in
     let best := (HoldSlackCrit.scan_slacks tg an).2 in
     let scale := to_float (ddiv d_one (to_double (fabs (fsub best worst)))) in
     let shift := fopp worst in
     let tc := fun t =>
       to_float (dsub d_one (to_double (fmul scale (fadd (time t) shift)))) in
     (∀ t, t ∈ all_hold_tags tg an → flt (time t) worst = false)
     ∧ (worst = infinity ∨ ∃ t, t ∈ all_hold_tags tg an ∧ worst = time t)
     ∧ (∀ t, t ∈ all_hold_tags tg an → flt best (time t) = false)
     ∧ (best = neg_infinity ∨ ∃ t, t ∈ all_hold_tags tg an ∧ best = time t)
     ∧ ∀ pin, pin ∈ pins nl →
         let tags := hold_slacks an (atom_pin_tnode lk pin) in
         ∃ i c,
           pin = Some i
           ∧ HoldSlackCrit.pin_criticalities_ st' !! i = Some c
           ∧ (∀ t, t ∈ tags → flt c (tc t) = false)
           ∧ (c = zero ∨ ∃ t, t ∈ tags ∧ c = tc t)
           ∧ ((∃ t, t ∈ tags ∧ fle zero (tc t) = true) →
              ∃ t, t ∈ tags ∧ (c = tc t ∨ feq c (tc t) = true)))
  ∧ (HoldSlackCrit.scan_slacks Example.graph2 Example.hold2
       = (of_Z (-2), of_Z 3)
     ∧ HoldSlackCrit.update_criticalities true Example.netlist2
         Example.lookup2 Example.graph2 Example.hold2
         (HoldSlackCrit.create Example.netlist2)
       = Ok {| HoldSlackCrit.pin_slacks_ := [NAN; NAN];
               HoldSlackCrit.pin_criticalities_ := [one; zero] |}).
Proof.
  split; [|split; vm_compute; reflexivity].
  intros on nl lk tg an st st' Hrun worst best scale shift tc.
  destruct (scan_slacks_spec tg an) as (H1 & H2 & H3 & H4).
  do 4 (split; [done|]).
  intros pin Hpin tags.
  destruct (hold_criticality_entry on nl lk tg an st st' pin Hrun Hpin)
    as (i & -> & Hc & _).
  destruct (max_tag_criticality_spec scale shift tags) as (Hub & Hatt & _ & Hge).
  exists i, (HoldSlackCrit.max_tag_criticality scale shift tags).
  split; [done|]. split; [exact Hc|]. done.
Qed.

(** C4, as amended. After a hold update that returns with [VTR_ASSERT]
    compiled in, the hold criticality of every pin of the netlist lies in
    [0, 1]. After a setup update that returns, every entry of the setup
    criticality array is either the entry the array had before the call or
    a value [calc_relaxed_criticality] returned for a node processed in the
    call, which lies in [0, 1] when that function's results do; so being
    [NAN] or within [0, 1] is kept by every setup update. A newly constructed
    evaluator holds [NAN] in every entry, and [NAN] is not in [0, 1]. *)
Theorem criticality_in_unit_interval_once_computed :
  (∀ nl lk tg an st st' pin,
     HoldSlackCrit.update_slacks_and_criticalities true nl lk tg an st
     = Ok st' →
     pin ∈ pins nl →
     ∃ i c, pin = Some i
            ∧ HoldSlackCrit.pin_criticalities_ st' !! i = Some c
            ∧ in_unit_interval c)
  ∧ (∀ safe lk calc tg an st st' i,
       (∀ mr ws tags c, calc mr ws tags = Ok c → in_unit_interval c) →
       SetupSlackCrit.update_slacks_and_criticalities safe lk calc tg an st
       = Ok st' →
       SetupSlackCrit.pin_criticalities_ st' !! i
       = SetupSlackCrit.pin_criticalities_ st !! i
       ∨ ∃ c, SetupSlackCrit.pin_criticalities_ st' !! i = Some c
              ∧ in_unit_interval c)
  ∧ (∀ safe lk calc tg an st st',
       (∀ mr ws tags c, calc mr ws tags = Ok c → in_unit_interval c) →
       (∀ i c, SetupSlackCrit.pin_criticalities_ st !! i = Some c →
               c = NAN ∨ in_unit_interval c) →
       SetupSlackCrit.update_slacks_and_criticalities safe lk calc tg an st
       = Ok st' →
       ∀ i c, SetupSlackCrit.pin_criticalities_ st' !! i = Some c →
              c = NAN ∨ in_unit_interval c)
  ∧ (∀ nl i, i < length (pins nl) →
       SetupSlackCrit.pin_criticalities_ (SetupSlackCrit.create nl) !! i
       = Some NAN)
  ∧ ¬ in_unit_interval NAN.
Proof.
  split; [|split; [|split; [|split]]].
  - intros nl lk tg an st st' pin Hrun Hpin.
    by eapply hold_criticality_in_range.
  - intros safe lk calc tg an st st' i Hcalc Hrun.
    destruct (setup_criticality_entries safe lk calc tg an st st' i Hrun)
      as [Hsame|(mr & ws & n & c & _ & _ & _ & Hc & Hv)]; [by left|right].
    exists c. split; [done|]. by eapply Hcalc.
  - intros safe lk calc tg an st st' Hcalc Hinv Hrun i c Hc.
    destruct (setup_criticality_entries safe lk calc tg an st st' i Hrun)
      as [Hsame|(mr & ws & n & c' & _ & _ & _ & Hc' & Hv)].
    + apply (Hinv i). congruence.
    + right. rewrite Hv in Hc. injection Hc as <-. by eapply Hcalc.
  - intros nl i Hi. simpl. by apply lookup_replicate_2.
  - intros [H _]. discriminate H.
Qed.

(** ** Concrete runs *)

Import Example.

Lemma lookup2_injective : lookup_injective_on lookup2 (nodes graph2).
Proof.
  intros n m Hn%list_elem_of_In Hm%list_elem_of_In. simpl in Hn, Hm.
  destruct Hn as [<-|[<-|[]]], Hm as [<-|[<-|[]]]; vm_compute; congruence.
Defined.

(** Witness of C1: a first update of the two-node design takes the full
    pass, the aggregates being new, and the entry of pin 0 holds what
    the stand-in for [calc_relaxed_criticality] returned. *)
Lemma criticality_recompute_strategy_witness :
  ∃ st',
    SetupSlackCrit.update_criticalities false lookup2 calc_zero graph2 setup2
      (SetupSlackCrit.create netlist2) = Ok st'
    ∧ SetupSlackCrit.pins_with_modified_criticality st' = [p0; p1]
    ∧ SetupSlackCrit.pin_criticalities_ st' !! 0 = Some zero.
Proof.
  destruct (SetupSlackCrit.update_criticalities false lookup2 calc_zero
              graph2 setup2 (SetupSlackCrit.create netlist2))
    as [st'| |] eqn:Hrun; [|vm_compute in Hrun; discriminate..].
  exists st'. split; [reflexivity|].
  destruct (criticality_recompute_strategy false lookup2 calc_zero graph2
              setup2 _ _ Hrun) as (mr & ws & Hagg & _ & Hdiff).
  destruct Hdiff as (_ & Hrec & _ & Hpins).
  - intros [Heq%map_eqb_spec _].
    vm_compute in Hagg. injection Hagg as <- <-.
    vm_compute in Heq. discriminate.
  - split; [rewrite Hpins; reflexivity|].
    destruct (Hrec n0) as (i & n' & c & Hi & _ & _ & Hc & Hv & _); [in_list|].
    vm_compute in Hi. injection Hi as <-.
    unfold calc_zero in Hc. injection Hc as <-. exact Hv.
Defined.



(** Witness of C3 as amended. *)
Lemma modified_slack_pins_are_mapped_nodes_witness :
  ∃ st',
    SetupSlackCrit.update_slacks false lookup2 setup2
      (SetupSlackCrit.create netlist2) = Ok st'
    ∧ SetupSlackCrit.pins_with_modified_slack st' = [p0].
Proof.
  destruct (SetupSlackCrit.update_slacks false lookup2 setup2
              (SetupSlackCrit.create netlist2))
    as [st'| |] eqn:Hrun; [|vm_compute in Hrun; discriminate..].
  exists st'. split; [reflexivity|].
  destruct (proj2 (modified_slack_pins_are_mapped_nodes false lookup2 setup2
                     (SetupSlackCrit.create netlist2)) st' Hrun)
    as (Hpins & _ & _).
  rewrite Hpins. reflexivity.
Defined.

(** Counterexample to C3 as stated: for the modified node set [{n5}],
    whose node has no pin, the projection of the design document is
    empty, but [nodes_to_pins] yields a one-entry sequence holding the
    invalid pin id, and [update_slacks] does not return a state with the
    empty sequence (it does not return at all). *)
Lemma unmapped_node_is_not_dropped :
  pin_projection lookup2 (modified_nodes unmapped_setup) = []
  ∧ nodes_to_pins (modified_nodes unmapped_setup) lookup2 [] = [INVALID]
  ∧ ∀ safe,
      ¬ ∃ st',
          SetupSlackCrit.update_slacks safe lookup2 unmapped_setup
            (SetupSlackCrit.create netlist2) = Ok st'
          ∧ SetupSlackCrit.pins_with_modified_slack st'
            = pin_projection lookup2 (modified_nodes unmapped_setup).
Proof.
  split; [reflexivity|]. split; [reflexivity|].
  intros safe (st' & Hrun & _). destruct safe; vm_compute in Hrun; discriminate.
Qed.

(** Witness of C4 as amended, on the hold evaluator. *)
Lemma criticality_in_unit_interval_once_computed_witness :
  HoldSlackCrit.update_slacks_and_criticalities true netlist2 lookup2 graph2
    hold2 (HoldSlackCrit.create netlist2)
  = Ok {| HoldSlackCrit.pin_slacks_ := [of_Z (-2); of_Z 3];
          HoldSlackCrit.pin_criticalities_ := [one; zero] |}
  ∧ ∃ i c, p1 = Some i
           ∧ [one; zero] !! i = Some c
           ∧ in_unit_interval c.
Proof.
  split; [run_ok|].
  apply (proj1 criticality_in_unit_interval_once_computed netlist2 lookup2
           graph2 hold2 (HoldSlackCrit.create netlist2)
           {| HoldSlackCrit.pin_slacks_ := [of_Z (-2); of_Z 3];
              HoldSlackCrit.pin_criticalities_ := [one; zero] |} p1);
    [run_ok|in_list].
Defined.

(** Counterexample to C4 as stated: after a setup update of the untimed
    design in which only node 0 was modified, the criticality stored for
    pin 1 is [NAN], which is not within [0, 1]; this is so whatever
    [calc_relaxed_criticality] computes, and the update does return, for
    instance when that function returns [0.]. *)
Lemma setup_criticality_stays_nan :
  p1 ∈ pins netlist2
  ∧ (∀ safe calc st',
       SetupSlackCrit.update_slacks_and_criticalities safe lookup2 calc
         graph2 untimed_setup (SetupSlackCrit.create netlist2) = Ok st' →
       SetupSlackCrit.setup_pin_criticality st' p1 = Ok NAN)
  ∧ (∃ st',
       SetupSlackCrit.update_slacks_and_criticalities false lookup2 calc_zero
         graph2 untimed_setup (SetupSlackCrit.create netlist2) = Ok st')
  ∧ ¬ in_unit_interval NAN.
Proof.
  split; [in_list|]. split; [|split].
  - intros safe calc st' Hrun.
    destruct safe; vm_compute in Hrun;
      destruct (calc _ _ _); try discriminate;
      injection Hrun as <-; reflexivity.
  - eexists. run_ok.
  - intros [H _]. discriminate H.
Qed.

(** Witness of C5: the global minimum of the two-slack design. *)
Lemma hold_criticality_rescaling_witness :
  HoldSlackCrit.update_criticalities true netlist2 lookup2 graph2 hold2
    (HoldSlackCrit.create netlist2)
  = Ok {| HoldSlackCrit.pin_slacks_ := [NAN; NAN];
          HoldSlackCrit.pin_criticalities_ := [one; zero] |}
  ∧ ∀ t, t ∈ all_hold_tags graph2 hold2 →
         flt (time t) (HoldSlackCrit.scan_slacks graph2 hold2).1 = false.
Proof.
  assert (Hrun : HoldSlackCrit.update_criticalities true netlist2 lookup2
                   graph2 hold2 (HoldSlackCrit.create netlist2)
                 = Ok {| HoldSlackCrit.pin_slacks_ := [NAN; NAN];
                         HoldSlackCrit.pin_criticalities_ := [one; zero] |})
    by run_ok.
  split; [exact Hrun|].
  exact (proj1 (proj1 hold_criticality_rescaling true netlist2 lookup2 graph2
                  hold2 _ _ Hrun)).
Defined.

(** Witness of C6: tags [{1.5, 0.75}] at node 0 give pin 0 the slack
    [0.75]. *)
Lemma pin_slack_is_least_tag_time_witness :
  SetupSlackCrit.update_pin_slack false lookup2 n0 setup2 [NAN; NAN]
  = Ok [binary_normalize prec emax 3 (-2) false; NAN]
  ∧ ∃ i s, tnode_atom_pin lookup2 n0 = Some i
           ∧ [binary_normalize prec emax 3 (-2) false; NAN] !! i = Some s
           ∧ slack_of_tags (setup_slacks setup2 n0) s.
Proof.
  split; [run_ok|].
  apply (proj1 pin_slack_is_least_tag_time false lookup2 setup2 n0 [NAN; NAN]).
  run_ok.
Defined.

(** Witness of C7, with [VTR_ASSERT_SAFE] compiled in. *)
Lemma aggregates_are_extremes_witness :
  (∀ t, t ∈ output_slack_tags graph2 setup2 → isfinite (time t) = true)
  ∧ ∃ mr ws,
      SetupSlackCrit.aggregate true graph2 setup2 = Ok (mr, ws)
      ∧ ∀ dp,
          aggregate_entry greatest_time (required_tags graph2 setup2) dp
            (mr !! dp)
          ∧ aggregate_entry least_time (output_slack_tags graph2 setup2) dp
              (ws !! dp).
Proof.
  assert (Hfin : ∀ t, t ∈ output_slack_tags graph2 setup2 →
                      isfinite (time t) = true).
  { intros t Ht%list_elem_of_In. simpl in Ht.
    destruct Ht as [<-|[<-|[<-|[]]]]; reflexivity. }
  split; [exact Hfin|].
  apply (aggregates_are_extremes true graph2 setup2). intros _. exact Hfin.
Defined.

(** Witness of C8 as amended. *)
Lemma repeated_update_keeps_arrays_witness :
  ∃ s1 s2,
    SetupSlackCrit.update_slacks_and_criticalities false lookup2 calc_zero
      graph2 setup2 (SetupSlackCrit.create netlist2) = Ok s1
    ∧ SetupSlackCrit.update_slacks_and_criticalities false lookup2 calc_zero
        graph2 setup2 s1 = Ok s2
    ∧ SetupSlackCrit.pin_slacks_ s2 = SetupSlackCrit.pin_slacks_ s1
    ∧ SetupSlackCrit.pin_criticalities_ s2
      = SetupSlackCrit.pin_criticalities_ s1.
Proof.
  destruct (SetupSlackCrit.update_slacks_and_criticalities false lookup2
              calc_zero graph2 setup2 (SetupSlackCrit.create netlist2))
    as [s1| |] eqn:Hrun; [|vm_compute in Hrun; discriminate..].
  destruct (repeated_update_keeps_arrays false lookup2 calc_zero graph2
              setup2 (SetupSlackCrit.create netlist2) s1 lookup2_injective)
    as (s2 & mr & ws & H2 & _ & Hs & Hc & _).
  - intros n Hn%list_elem_of_In. simpl in Hn. destruct Hn as [<-|[]]. in_list.
  - exact Hrun.
  - exists s1, s2. split; [reflexivity|]. split; [exact H2|]. split; assumption.
Defined.

(** Counterexample to C8 as stated: in the two-node design with node 0
    modified, whatever [calc_relaxed_criticality] computes, the first call
    on a new evaluator reports the pins of both nodes as modified in
    criticality and the second call, on the unchanged analyzer, reports pin
    0 only; both calls do return, for instance when that function
    returns [0.]. *)
Lemma modified_criticality_pins_differ_between_calls :
  (∀ safe calc s1 s2,
     SetupSlackCrit.update_slacks_and_criticalities safe lookup2 calc
       graph2 setup2 (SetupSlackCrit.create netlist2) = Ok s1 →
     SetupSlackCrit.update_slacks_and_criticalities safe lookup2 calc
       graph2 setup2 s1 = Ok s2 →
     SetupSlackCrit.pins_with_modified_criticality s1 = [p0; p1]
     ∧ SetupSlackCrit.pins_with_modified_criticality s2 = [p0]
     ∧ SetupSlackCrit.pins_with_modified_criticality s1
       ≠ SetupSlackCrit.pins_with_modified_criticality s2)
  ∧ ∃ s1 s2,
      SetupSlackCrit.update_slacks_and_criticalities false lookup2 calc_zero
        graph2 setup2 (SetupSlackCrit.create netlist2) = Ok s1
      ∧ SetupSlackCrit.update_slacks_and_criticalities false lookup2 calc_zero
          graph2 setup2 s1 = Ok s2.
Proof.
  split.
  - intros safe calc s1 s2 H1 H2.
    assert (Hp1 : SetupSlackCrit.pins_with_modified_criticality s1 = [p0; p1]
                  ∧ SetupSlackCrit.prev_max_req_ s1
                    = {[ (clk, clk) := of_Z 5 ]}
                  ∧ SetupSlackCrit.prev_worst_slack_ s1
                    = {[ (clk, clk) := binary_normalize prec emax 3 (-2) false ]}
                  ∧ SetupSlackCrit.pin_slacks_ s1
                    = [binary_normalize prec emax 3 (-2) false; NAN]
                  ∧ length (SetupSlackCrit.pin_criticalities_ s1) = 2).
    { destruct safe; vm_compute in H1;
        repeat (match type of H1 with
                | context [match calc ?a ?b ?c with _ => _ end] =>
                    destruct (calc a b c)
                end; try discriminate);
        injection H1 as <-; repeat split; vm_compute; reflexivity. }
    destruct Hp1 as (Hp1 & Hmr & Hws & Hsl & Hlen).
    assert (Hp2 : SetupSlackCrit.pins_with_modified_criticality s2 = [p0]).
    { destruct s1 as [sl cr ms mc pmr pws]. simpl in *. subst.
      destruct cr as [|c0 [|c1 [|]]]; try discriminate.
      destruct safe; vm_compute in H2;
        repeat (match type of H2 with
                | context [match calc ?a ?b ?c with _ => _ end] =>
                    destruct (calc a b c)
                end; try discriminate);
        injection H2 as <-; reflexivity. }
    rewrite Hp1, Hp2. repeat split. discriminate.
  - eexists _, _. split; run_ok.
Qed.

(** Witness of C9: pin 2 of the three-pin netlist has no timing node. *)
Lemma hold_update_requires_total_lookup_witness :
  (∃ pin, pin ∈ pins netlist3 ∧ atom_pin_tnode lookup2 pin = INVALID)
  ∧ HoldSlackCrit.update_slacks true netlist3 lookup2 hold2
      (HoldSlackCrit.create netlist3) = AssertionFailure.
Proof.
  assert (Hex : ∃ pin, pin ∈ pins netlist3
                       ∧ atom_pin_tnode lookup2 pin = INVALID).
  { exists p2. split; [in_list|reflexivity]. }
  split; [exact Hex|].
  apply (proj1 (hold_update_requires_total_lookup true netlist3 lookup2 hold2
                  (HoldSlackCrit.create netlist3)) eq_refl Hex).
  intros pin Hpin%list_elem_of_In. simpl in Hpin.
  destruct Hpin as [<-|[<-|[<-|[]]]]; eexists; (split; [reflexivity|]);
    simpl; lia.
Defined.

(** Witness of C10: node 1 carries no hold-slack tag. *)
Lemma untagged_pin_has_zero_hold_criticality_witness :
  ∃ st',
    HoldSlackCrit.update_slacks_and_criticalities true netlist2 lookup2
      graph2 hold_node0 (HoldSlackCrit.create netlist2) = Ok st'
    ∧ HoldSlackCrit.hold_pin_criticality st' p1 = Ok zero
    ∧ HoldSlackCrit.hold_pin_slack st' p1 = Ok infinity.
Proof.
  destruct (HoldSlackCrit.update_slacks_and_criticalities true netlist2
              lookup2 graph2 hold_node0 (HoldSlackCrit.create netlist2))
    as [st'| |] eqn:Hrun; [|vm_compute in Hrun; discriminate..].
  exists st'. split; [reflexivity|].
  destruct (untagged_pin_has_zero_hold_criticality true netlist2 lookup2
              graph2 hold_node0 _ st' p1 Hrun)
    as (i & c & s & Hi & Hc & Hs & _ & Hnone & _); [in_list|].
  injection Hi as <-. destruct (Hnone eq_refl) as [-> ->].
  unfold HoldSlackCrit.hold_pin_criticality, HoldSlackCrit.hold_pin_slack,
    vec_get, p1.
  rewrite Hc, Hs. split; reflexivity.
Defined.

(** ** Further facts *)

(** *** More on loops and on IEEE numbers *)

Lemma feq_self (x : float) : feq x x = true ↔ isnan x = false.
Proof.
  unfold feq, SFeqb. destruct x as [s|s| |s m e]; simpl; try done.
  - by destruct s.
  - destruct s; rewrite Z.compare_refl;
      change (Pos.compare_cont Eq m m) with (Pos.compare m m);
      by rewrite Pos.compare_refl.
Qed.

Lemma flt_nan_r (x : float) : flt x NAN = false.
Proof. by destruct x. Qed.

Lemma flt_finite_infinity (x : float) :
  isfinite x = true → flt x infinity = true ∧ flt neg_infinity x = true.
Proof. destruct x as [s|s| |s m e]; try done; by destruct s. Qed.

Lemma fsub_diag (x : float) : isfinite x = true → fsub x x = zero.
Proof.
  destruct x as [s|s| |s m e]; try done; intros _.
  - by destruct s.
  - unfold fsub, SFsub. by rewrite Z.sub_diag.
Qed.

Lemma fadd_opp_diag (x : float) : isfinite x = true → fadd x (fopp x) = zero.
Proof.
  destruct x as [s|s| |s m e]; try done; intros _.
  - by destruct s.
  - unfold fadd, fopp, SFopp, SFadd.
    set (a := fst (shl_align m e (Z.min e e))).
    replace (Z.add (cond_Zopp s (Zpos a)) (cond_Zopp (negb s) (Zpos a)))
      with 0%Z by (destruct s; simpl; lia).
    done.
Qed.

Lemma fmul_zero_r (a : float) :
  isfinite a = true → ∃ s, fmul a zero = S754_zero s.
Proof. destruct a as [s|s| |s m e]; try done; intros _; simpl; eauto. Qed.

Lemma d_one_finite : ∃ m e, d_one = S754_finite false m e.
Proof. eexists _, _. vm_compute. reflexivity. Qed.

Lemma to_float_d_one : to_float d_one = one.
Proof. vm_compute. reflexivity. Qed.

Lemma dsub_one_zero (s : bool) : dsub d_one (S754_zero s) = d_one.
Proof. destruct d_one_finite as (m & e & ->). done. Qed.

(** A loop whose values never fail ends out of bounds as soon as one pin
    is outside the array. *)
Lemma write_loop_oob {X} (pinof : X → AtomPinId) (g : X → outcome float)
  (xs : list X) (v : list float) :
  (∀ x, x ∈ xs → ∃ c, g x = Ok c) →
  (∃ x, x ∈ xs ∧ ¬ pin_in_range (length v) (pinof x)) →
  for_each xs (write_body pinof g) v = OutOfBounds.
Proof.
  revert v. induction xs as [|x xs IH]; intros v Hg (y & Hy & Hout).
  - by apply elem_of_nil in Hy.
  - simpl. unfold write_body at 1.
    destruct (Hg x) as [c ->]; [by left|]. simpl.
    unfold vec_set. destruct (pinof x) as [i|] eqn:Hpin; [|done].
    case_decide as Hi; [|done]. simpl. apply IH.
    + intros z Hz. apply Hg. by right.
    + exists y. rewrite length_insert.
      apply elem_of_cons in Hy as [->|Hy]; [|done].
      exfalso. apply Hout. rewrite Hpin. by exists i.
Qed.

(** A loop ends in the assertion failure when some value does and every
    element before it either fails so too or is stored inside the
    array. *)
Lemma write_loop_assert_mixed {X} (pinof : X → AtomPinId)
  (g : X → outcome float) (xs : list X) (v : list float) :
  (∀ x, x ∈ xs →
     g x = AssertionFailure
     ∨ ∃ c, g x = Ok c ∧ pin_in_range (length v) (pinof x)) →
  (∃ x, x ∈ xs ∧ g x = AssertionFailure) →
  for_each xs (write_body pinof g) v = AssertionFailure.
Proof.
  revert v. induction xs as [|x xs IH]; intros v Hall (y & Hy & Hfail).
  - by apply elem_of_nil in Hy.
  - simpl. unfold write_body at 1.
    destruct (Hall x) as [Hgx|(c & Hgx & i & Hpin & Hi)]; [by left|..];
      rewrite Hgx; [done|].
    simpl. rewrite Hpin. simpl. rewrite decide_True by done. simpl.
    apply IH.
    + intros z Hz. rewrite length_insert. apply Hall. by right.
    + apply elem_of_cons in Hy as [->|Hy]; [congruence|eauto].
Qed.

(** Two runs of a loop on arrays of the same length both return, and
    agree on every entry that is the pin of an element. *)
Lemma write_loop_agree {X} (pinof : X → AtomPinId) (g : X → outcome float)
  (xs : list X) (v1 v2 r1 : list float) :
  for_each xs (write_body pinof g) v1 = Ok r1 → length v2 = length v1 →
  ∃ r2, for_each xs (write_body pinof g) v2 = Ok r2
        ∧ length r2 = length r1
        ∧ ∀ x i, x ∈ xs → pinof x = Some i → r2 !! i = r1 !! i.
Proof.
  intros (ws & Hws & ->)%write_loop_Ok Hlen.
  exists (apply_writes ws v2). split; [|split].
  - apply write_loop_Ok. exists ws. by rewrite Hlen.
  - by rewrite !apply_writes_length.
  - intros x i Hx Hpin. rewrite !apply_writes_lookup, Hlen.
    destruct (last_write_is_Some pinof g _ xs ws i x Hws Hx Hpin) as [c ->].
    done.
Qed.

(** *** More on SetupSlackCrit *)
Section SetupMore.
Variable safe : bool.
Variable nl : AtomNetlist.
Variable lk : AtomLookup.
Variable calc :
  gmap DomainPair float → gmap DomainPair float → list TimingTag →
  outcome float.

Import SetupSlackCrit.

(** X1. [nodes_to_pins] does not clear the vector it is given: it keeps
    the entries already there and appends the pin of each node, in order,
    so that [nodes.size()] entries are added and doing it for two node
    sequences in turn is doing it for their concatenation. *)
Theorem nodes_to_pins_appends (ns1 ns2 : list NodeId) (ps : list AtomPinId) :
  nodes_to_pins (ns1 ++ ns2) lk ps
  = nodes_to_pins ns2 lk (nodes_to_pins ns1 lk ps)
  ∧ length (nodes_to_pins ns1 lk ps) = length ps + length ns1
  ∧ (∀ i, i < length ps → nodes_to_pins ns1 lk ps !! i = ps !! i)
  ∧ (∀ i n, ns1 !! i = Some n →
            nodes_to_pins ns1 lk ps !! (length ps + i)
            = Some (tnode_atom_pin lk n)).
Proof.
  rewrite !nodes_to_pins_map. split; [|split; [|split]].
  - by rewrite fmap_app, app_assoc.
  - by rewrite length_app, length_fmap.
  - intros i Hi. by apply lookup_app_l.
  - intros i n Hn. rewrite lookup_app_r by lia.
    replace (length ps + i - length ps) with i by lia.
    by rewrite list_lookup_fmap, Hn.
Qed.

Lemma setup_update_both_Ok (tg : TimingGraph) (an : SetupTimingAnalyzer)
  (st st' : t) :
  update_slacks_and_criticalities safe lk calc tg an st = Ok st' ↔
  ∃ sl mr ws cr,
    for_each (modified_nodes an)
      (write_body (tnode_atom_pin lk) (setup_slack_value safe lk an))
      (pin_slacks_ st) = Ok sl
    ∧ aggregate safe tg an = Ok (mr, ws)
    ∧ for_each (processed_nodes tg an mr ws st)
        (write_body (tnode_atom_pin lk) (setup_crit_value safe lk calc an mr ws))
        (pin_criticalities_ st) = Ok cr
    ∧ st' = {| pin_slacks_ := sl;
               pin_criticalities_ := cr;
               pins_with_modified_slacks_ :=
                 tnode_atom_pin lk <$> modified_nodes an;
               pins_with_modified_criticalities_ :=
                 tnode_atom_pin lk <$> processed_nodes tg an mr ws st;
               prev_max_req_ := mr;
               prev_worst_slack_ := ws |}.
Proof.
  unfold update_slacks_and_criticalities. rewrite bind_Ok. split.
  - intros (sa & Hsl & Hcr).
    apply update_slacks_Ok in Hsl as (sl & Hsl & ->).
    apply update_criticalities_Ok in Hcr as (mr & ws & cr & Hagg & Hcr & ->).
    rewrite crit_loop_write in Hcr. simpl in *.
    exists sl, mr, ws, cr. done.
  - intros (sl & mr & ws & cr & Hsl & Hagg & Hcr & ->).
    eexists. split.
    + apply update_slacks_Ok. exists sl. split; [done|reflexivity].
    + apply update_criticalities_Ok. exists mr, ws, cr.
      split; [done|]. split; [|reflexivity].
      by rewrite crit_loop_write.
Qed.

(** X2. Through any sequence of combined setup updates that return,
    starting from the constructed evaluator: both arrays keep one entry
    per pin of the netlist, the two modified-pin lists hold only pin ids
    that index the arrays, and [setup_pin_slack] and
    [setup_pin_criticality] return for every pin index below the pin
    count. *)
Theorem setup_arrays_keep_netlist_size (st : t) :
  setup_reachable safe nl lk calc st →
  length (pin_slacks_ st) = length (pins nl)
  ∧ length (pin_criticalities_ st) = length (pins nl)
  ∧ Forall (pin_in_range (length (pins nl))) (pins_with_modified_slack st)
  ∧ Forall (pin_in_range (length (pins nl)))
      (pins_with_modified_criticality st)
  ∧ ∀ i, i < length (pins nl) →
      (∃ x, setup_pin_slack st (Some i) = Ok x)
      ∧ (∃ c, setup_pin_criticality st (Some i) = Ok c).
Proof.
  assert (Hget : ∀ s : t,
    length (pin_slacks_ s) = length (pins nl) →
    length (pin_criticalities_ s) = length (pins nl) →
    ∀ i, i < length (pins nl) →
      (∃ x, setup_pin_slack s (Some i) = Ok x)
      ∧ (∃ c, setup_pin_criticality s (Some i) = Ok c)).
  { intros s H1 H2 i Hi. unfold setup_pin_slack, setup_pin_criticality, vec_get.
    destruct (lookup_lt_is_Some_2 (pin_slacks_ s) i) as [x ->]; [lia|].
    destruct (lookup_lt_is_Some_2 (pin_criticalities_ s) i) as [c ->]; [lia|].
    eauto. }
  induction 1 as [|tg an st st' _ IH Hrun].
  - assert (H1 : length (pin_slacks_ (create nl)) = length (pins nl))
      by apply length_replicate.
    assert (H2 : length (pin_criticalities_ (create nl)) = length (pins nl))
      by apply length_replicate.
    do 2 (split; [done|]). do 2 (split; [constructor|]). by apply Hget.
  - destruct IH as (H1 & H2 & _).
    apply setup_update_both_Ok in Hrun
      as (sl & mr & ws & cr & Hsl & _ & Hcr & ->).
    pose proof (write_loop_length _ _ _ _ _ Hsl) as L1.
    pose proof (write_loop_length _ _ _ _ _ Hcr) as L2.
    split; [simpl; lia|]. split; [simpl; lia|]. split; [|split].
    + simpl. apply Forall_fmap, Forall_forall. intros n Hn. simpl.
      destruct (write_loop_elem _ _ _ _ _ n Hsl Hn) as (i & c & ? & ? & _).
      exists i. split; [done|lia].
    + simpl. apply Forall_fmap, Forall_forall. intros n Hn. simpl.
      destruct (write_loop_elem _ _ _ _ _ n Hcr Hn) as (i & c & ? & ? & _).
      exists i. split; [done|lia].
    + apply Hget; simpl; lia.
Qed.

(** X3. The two phases of the combined setup update do not interfere:
    slacks first and criticalities second returns a state exactly when
    criticalities first and slacks second returns it. *)
Theorem setup_phases_commute (tg : TimingGraph) (an : SetupTimingAnalyzer)
  (st st' : t) :
  update_slacks_and_criticalities safe lk calc tg an st = Ok st' ↔
  setup_criticalities_then_slacks safe lk calc tg an st = Ok st'.
Proof.
  rewrite setup_update_both_Ok.
  unfold setup_criticalities_then_slacks. rewrite bind_Ok. split.
  - intros (sl & mr & ws & cr & Hsl & Hagg & Hcr & ->).
    eexists. split.
    + apply update_criticalities_Ok. exists mr, ws, cr.
      split; [done|]. split; [|reflexivity]. by rewrite crit_loop_write.
    + apply update_slacks_Ok. exists sl. split; [done|reflexivity].
  - intros (sa & Hcr & Hsl).
    apply update_criticalities_Ok in Hcr as (mr & ws & cr & Hagg & Hcr & ->).
    apply update_slacks_Ok in Hsl as (sl & Hsl & ->).
    rewrite crit_loop_write in Hcr. simpl in *.
    exists sl, mr, ws, cr. done.
Qed.

(** *** Aggregates that hold a NaN *)

Lemma maps_equal_self (m : gmap DomainPair float) :
  maps_equal m m ↔ nan_free m.
Proof.
  unfold maps_equal, nan_free, entry_equal. split.
  - intros H dp v Hv. specialize (H dp). rewrite Hv in H. by apply feq_self.
  - intros H dp. destruct (m !! dp) as [v|] eqn:Hv; [|done].
    apply feq_self. by eapply H.
Qed.

(** X4. A criticality update stores the aggregates it computed, and the
    next update on the same analyzer and graph compares against them with
    [==] on the times: it takes the incremental pass when no stored time
    is a NaN, and the full pass over all nodes of the graph as soon as one
    is, since a NaN never compares equal to itself. *)
Theorem aggregates_with_nan_force_full_pass (tg : TimingGraph)
  (an : SetupTimingAnalyzer) (s0 s1 s2 : t) (mr ws : gmap DomainPair float) :
  update_criticalities safe lk calc tg an s0 = Ok s1 →
  update_criticalities safe lk calc tg an s1 = Ok s2 →
  aggregate safe tg an = Ok (mr, ws) →
  prev_max_req_ s1 = mr ∧ prev_worst_slack_ s1 = ws
  ∧ (nan_free mr ∧ nan_free ws →
     pins_with_modified_criticality s2
     = (tnode_atom_pin lk <$> modified_nodes an))
  ∧ (¬ (nan_free mr ∧ nan_free ws) →
     pins_with_modified_criticality s2 = (tnode_atom_pin lk <$> nodes tg)).
Proof.
  intros (mr1 & ws1 & cr1 & Hagg1 & _ & ->)%update_criticalities_Ok.
  intros (mr2 & ws2 & cr2 & Hagg2 & _ & ->)%update_criticalities_Ok Hagg.
  rewrite Hagg in Hagg1, Hagg2.
  injection Hagg1 as <- <-. injection Hagg2 as <- <-. simpl.
  split; [done|]. split; [done|]. split.
  - intros [H1 H2]. rewrite processed_nodes_same; [done|]. simpl.
    by rewrite !maps_equal_self.
  - intros Hnan. rewrite processed_nodes_changed; [done|]. simpl.
    by rewrite !maps_equal_self.
Qed.

(** *** How the slack update ends *)

Lemma setup_slack_value_unchecked (an : SetupTimingAnalyzer) (n : NodeId) :
  setup_slack_value false lk an n
  = Ok (min_time_or_infinity (setup_slacks an n)).
Proof. done. Qed.

Lemma setup_slack_value_checked (an : SetupTimingAnalyzer) (n : NodeId) :
  setup_slack_value true lk an n
  = if id_valid (tnode_atom_pin lk n)
    then Ok (min_time_or_infinity (setup_slacks an n))
    else AssertionFailure.
Proof. unfold setup_slack_value. by destruct (id_valid _). Qed.

(** X5. With [VTR_ASSERT_SAFE] compiled out, the setup slack update never
    ends in an assertion failure, and a modified node whose pin is invalid
    or beyond the slack array makes it write out of bounds. With
    [VTR_ASSERT_SAFE] compiled in, a modified node without pin ends the
    update in the assertion failure (the other modified nodes having pins
    inside the array). In neither build is such a node skipped. *)
Theorem setup_update_slacks_outcome (an : SetupTimingAnalyzer) (st : t) :
  (update_slacks false lk an st ≠ AssertionFailure
   ∧ ((∃ n, n ∈ modified_nodes an
            ∧ ¬ pin_in_range (length (pin_slacks_ st)) (tnode_atom_pin lk n)) →
      update_slacks false lk an st = OutOfBounds))
  ∧ ((∃ n, n ∈ modified_nodes an ∧ tnode_atom_pin lk n = INVALID) →
     (∀ n, n ∈ modified_nodes an →
        tnode_atom_pin lk n = INVALID
        ∨ pin_in_range (length (pin_slacks_ st)) (tnode_atom_pin lk n)) →
     update_slacks true lk an st = AssertionFailure).
Proof.
  split; [split|].
  - unfold update_slacks. rewrite slack_loop_write.
    pose proof (write_loop_not_assert (tnode_atom_pin lk)
                  (setup_slack_value false lk an) (modified_nodes an)
                  (pin_slacks_ st)) as Hna.
    destruct (for_each _ _ _); simpl; try done.
    exfalso. apply Hna; [|done]. intros n _.
    by rewrite setup_slack_value_unchecked.
  - intros Hout. unfold update_slacks.
    rewrite slack_loop_write, write_loop_oob; [done| |done].
    intros n _. rewrite setup_slack_value_unchecked. eauto.
  - intros (n0 & Hn0 & Hinv) Hall. unfold update_slacks.
    rewrite slack_loop_write, write_loop_assert_mixed; [done| |].
    + intros n Hn. rewrite setup_slack_value_checked.
      destruct (Hall n Hn) as [->|(i & Hi & Hlt)]; [by left|right].
      rewrite Hi. simpl. eexists. split; [done|]. by exists i.
    + exists n0. split; [done|].
      by rewrite setup_slack_value_checked, Hinv.
Qed.

(** *** Domain pairs do not mix *)

Lemma record_extreme_lookup_other (beats : float → float → bool)
  (m : gmap DomainPair float) (x : TimingTag) (dp : DomainPair) :
  domain_pair_of x ≠ dp → record_extreme beats m x !! dp = m !! dp.
Proof.
  intros Hne. unfold record_extreme.
  destruct (m !! domain_pair_of x); [destruct (beats _ _)|];
    by rewrite ?lookup_insert_ne.
Qed.

Lemma record_extreme_lookup_same (beats : float → float → bool)
  (m m' : gmap DomainPair float) (x : TimingTag) :
  m !! domain_pair_of x = m' !! domain_pair_of x →
  record_extreme beats m x !! domain_pair_of x
  = record_extreme beats m' x !! domain_pair_of x.
Proof.
  intros Heq. unfold record_extreme. rewrite <- Heq.
  destruct (m !! domain_pair_of x) as [cur|] eqn:Hm;
    [destruct (beats _ _)|]; by rewrite ?lookup_insert_eq, ?Hm.
Qed.

Lemma record_extreme_fold_same_pair (beats : float → float → bool)
  (l : list TimingTag) (dp : DomainPair) (m m' : gmap DomainPair float) :
  (∀ t, t ∈ l → domain_pair_of t = dp) → m !! dp = m' !! dp →
  fold_left (record_extreme beats) l m !! dp
  = fold_left (record_extreme beats) l m' !! dp.
Proof.
  revert m m'. induction l as [|x l IH]; intros m m' Hall Heq; simpl; [done|].
  apply IH; [intros t Ht; apply Hall; by right|].
  rewrite <- (Hall x) in * by (by left).
  by apply record_extreme_lookup_same.
Qed.

Lemma record_extreme_local (beats : float → float → bool)
  (tags : list TimingTag) (dp : DomainPair) (m : gmap DomainPair float) :
  fold_left (record_extreme beats) tags m !! dp
  = fold_left (record_extreme beats) (tags_of_pair dp tags) m !! dp.
Proof.
  revert m. induction tags as [|x tags IH]; intros m; simpl; [done|].
  unfold tags_of_pair in *. rewrite filter_cons.
  destruct (decide (domain_pair_of x = dp)) as [Hx|Hx]; simpl.
  - apply IH.
  - rewrite IH. apply record_extreme_fold_same_pair.
    + intros t Ht. by apply list_elem_of_filter in Ht as [? _].
    + by apply record_extreme_lookup_other.
Qed.

Lemma worst_slack_loop_checked (tags : list TimingTag)
  (w w' : gmap DomainPair float) :
  for_each tags (record_worst_slack safe) w = Ok w' →
  safe = true → ∀ t, t ∈ tags → isfinite (time t) = true.
Proof.
  revert w. induction tags as [|x tags IH]; intros w Hrun Hs t Ht.
  - by apply elem_of_nil in Ht.
  - simpl in Hrun. apply bind_Ok in Hrun as (w1 & Hx & Hrest).
    apply elem_of_cons in Ht as [->|Ht]; [|by eapply IH].
    unfold record_worst_slack, VTR_ASSERT_SAFE in Hx.
    apply bind_Ok in Hx as (_ & _ & Hx).
    apply bind_Ok in Hx as (u & Hfin & _).
    exact (proj1 (check_Ok _ _ _) Hfin Hs).
Qed.

(** X6. The entry of an aggregate under a domain pair depends on the
    tags of that pair only: it is what the same loop computes from the
    visited tags filed under the pair, the tags of all other pairs left
    out. *)
Theorem aggregate_entry_depends_on_own_pair (tg : TimingGraph)
  (an : SetupTimingAnalyzer) (mr ws : gmap DomainPair float)
  (dp : DomainPair) :
  aggregate safe tg an = Ok (mr, ws) →
  mr !! dp
  = fold_left record_max_req (tags_of_pair dp (required_tags tg an)) ∅ !! dp
  ∧ ∃ w, for_each (tags_of_pair dp (output_slack_tags tg an))
           (record_worst_slack safe) ∅ = Ok w
         ∧ ws !! dp = w !! dp.
Proof.
  unfold aggregate. rewrite aggregate_loop. simpl.
  intros (w & Hw & [= <- <-])%bind_Ok. split.
  - apply (record_extreme_local flt).
  - fold (output_slack_tags tg an) in Hw.
    eexists. split.
    + apply worst_slack_loop_total. intros Hs t Ht.
      apply elem_of_tags_of_pair in Ht as [_ Ht].
      by eapply worst_slack_loop_checked.
    + apply worst_slack_loop_Ok in Hw as ->.
      apply (record_extreme_local (fun cur new => flt new cur)).
Qed.

(** *** Reading slacks back *)

(** X7. A setup slack update that returns touches the slack array only:
    criticalities, the modified-criticality pins and the stored aggregates
    are as before. [setup_pin_slack] of a pin that is the pin of no
    modified node returns what it returned before the update; for the pin
    of a modified node it returns the slack of the tags ([+infinity]
    without tags, else the minimum tag's time) of a modified node with
    that pin, which is the node itself when distinct modified nodes have
    distinct pins. *)
Theorem setup_slack_update_frame (an : SetupTimingAnalyzer) (st st' : t) :
  update_slacks safe lk an st = Ok st' →
  pin_criticalities_ st' = pin_criticalities_ st
  ∧ pins_with_modified_criticality st' = pins_with_modified_criticality st
  ∧ prev_max_req_ st' = prev_max_req_ st
  ∧ prev_worst_slack_ st' = prev_worst_slack_ st
  ∧ (∀ pin, pin ∉ (tnode_atom_pin lk <$> modified_nodes an) →
            setup_pin_slack st' pin = setup_pin_slack st pin)
  ∧ (∀ n, n ∈ modified_nodes an →
       ∃ n', n' ∈ modified_nodes an
             ∧ tnode_atom_pin lk n' = tnode_atom_pin lk n
             ∧ setup_pin_slack st' (tnode_atom_pin lk n)
               = Ok (min_time_or_infinity (setup_slacks an n'))
             ∧ (lookup_injective_on lk (modified_nodes an) → n' = n)).
Proof.
  intros (sl & Hloop & ->)%update_slacks_Ok. simpl.
  do 4 (split; [done|]). split.
  - intros [i|] Hnot; [|done]. unfold setup_pin_slack, vec_get. simpl.
    rewrite (write_loop_frame _ _ _ _ _ i Hloop); [done|].
    intros n Hn Hpin. apply Hnot. rewrite <- Hpin.
    by apply list_elem_of_fmap_2.
  - intros n Hn.
    destruct (write_loop_elem _ _ _ _ _ n Hloop Hn) as (i & c0 & Hpin & _ & _).
    destruct (write_loop_written _ _ _ _ _ n i Hloop Hn Hpin)
      as (y & c & Hy & Hpy & Hgy & Hv).
    exists y. split; [done|]. split; [congruence|]. split.
    + unfold setup_pin_slack, vec_get. simpl. rewrite Hpin, Hv.
      unfold setup_slack_value in Hgy.
      by apply bind_Ok in Hgy as (_ & _ & [= <-]).
    + intros Hinj. apply Hinj; congruence.
Qed.

(** *** What the criticality update leaves alone, and when it stops *)

(** X16. A setup criticality update that returns leaves the slack array
    and the modified-slack pins as they were, and [setup_pin_criticality]
    of a pin that is the pin of no processed node (of no modified node on
    the incremental pass, of no node of the graph on the full pass)
    returns what it returned before. *)
Theorem setup_criticality_update_frame (tg : TimingGraph)
  (an : SetupTimingAnalyzer) (st st' : t) (mr ws : gmap DomainPair float) :
  update_criticalities safe lk calc tg an st = Ok st' →
  aggregate safe tg an = Ok (mr, ws) →
  pin_slacks_ st' = pin_slacks_ st
  ∧ pins_with_modified_slack st' = pins_with_modified_slack st
  ∧ ∀ pin, pin ∉ (tnode_atom_pin lk <$> processed_nodes tg an mr ws st) →
           setup_pin_criticality st' pin = setup_pin_criticality st pin.
Proof.
  intros (mr' & ws' & cr & Hagg & Hloop & ->)%update_criticalities_Ok Hagg'.
  rewrite Hagg in Hagg'. injection Hagg' as -> ->.
  rewrite crit_loop_write in Hloop. simpl.
  do 2 (split; [done|]).
  intros [i|] Hnot; [|done]. unfold setup_pin_criticality, vec_get. simpl.
  rewrite (write_loop_frame _ _ _ _ _ i Hloop); [done|].
  intros n Hn Hpin. apply Hnot. rewrite <- Hpin.
  by apply list_elem_of_fmap_2.
Qed.

Lemma for_each_in_bounds {A S} (xs : list A) (body : A → S → outcome S)
  (s : S) :
  (∀ x s, body x s ≠ OutOfBounds) → for_each xs body s ≠ OutOfBounds.
Proof.
  intros Hb. revert s. induction xs as [|x xs IH]; intros s; simpl; [done|].
  destruct (body x s) eqn:Hx; simpl; [apply IH|done|]. by apply Hb in Hx.
Qed.

Lemma record_worst_slack_in_bounds (tag : TimingTag)
  (w : gmap DomainPair float) :
  record_worst_slack safe tag w ≠ OutOfBounds.
Proof.
  unfold record_worst_slack, VTR_ASSERT_SAFE, check.
  destruct (safe && negb (negb (isnan (time tag)))); simpl; [done|].
  destruct (safe && negb (isfinite (time tag))); simpl; [done|].
  destruct (w !! _); [destruct (flt _ _)|]; done.
Qed.

(** X17. The aggregation loop never indexes anything out of bounds. It
    returns exactly when [VTR_ASSERT_SAFE] is compiled out or every setup
    slack at a logical output is finite; with the assertions compiled in,
    one NaN or infinite slack there ends the whole criticality update in
    the assertion failure. *)
Theorem aggregate_outcome (tg : TimingGraph) (an : SetupTimingAnalyzer) :
  aggregate safe tg an ≠ OutOfBounds
  ∧ ((∃ mr ws, aggregate safe tg an = Ok (mr, ws)) ↔
     (safe = true →
      ∀ t, t ∈ output_slack_tags tg an → isfinite (time t) = true))
  ∧ (safe = true →
     (∃ t, t ∈ output_slack_tags tg an ∧ isfinite (time t) = false) →
     ∀ st, update_criticalities safe lk calc tg an st = AssertionFailure).
Proof.
  assert (Hshape : aggregate safe tg an
    = do w <- for_each (output_slack_tags tg an) (record_worst_slack safe) ∅;
      Ok (fold_left record_max_req (required_tags tg an) ∅, w)).
  { unfold aggregate. by rewrite aggregate_loop. }
  assert (Hib : aggregate safe tg an ≠ OutOfBounds).
  { rewrite Hshape.
    pose proof (for_each_in_bounds (output_slack_tags tg an)
                  (record_worst_slack safe) ∅ record_worst_slack_in_bounds).
    by destruct (for_each _ _ _). }
  assert (Hiff : (∃ mr ws, aggregate safe tg an = Ok (mr, ws)) ↔
     (safe = true →
      ∀ t, t ∈ output_slack_tags tg an → isfinite (time t) = true)).
  { rewrite Hshape. split.
    - intros (mr & ws & (w & Hw & _)%bind_Ok).
      by eapply worst_slack_loop_checked.
    - intros Hfin. rewrite worst_slack_loop_total by done. simpl. eauto. }
  split; [done|]. split; [done|].
  intros Hs (t & Ht & Hinf) st. unfold update_criticalities.
  destruct (aggregate safe tg an) as [[mr ws]| |] eqn:Hagg; [|done|done].
  exfalso. assert (Hfin : isfinite (time t) = true).
  { apply (proj1 Hiff); eauto. }
  congruence.
Qed.

End SetupMore.

(** *** More on HoldSlackCrit *)
Section HoldMore.
Variable on : bool.
Variable nl : AtomNetlist.
Variable lk : AtomLookup.

Import HoldSlackCrit.

Local Abbreviation slack_loop an :=
  (for_each (pins nl) (write_body id (hold_slack_value on lk an))).
Local Abbreviation crit_loop tg an :=
  (for_each (pins nl)
     (write_body id (fun pin =>
        calc_pin_criticality on lk pin an
          (calc_scale (scan_slacks tg an).1 (scan_slacks tg an).2)
          (fopp (scan_slacks tg an).1)))).

Lemma hold_update_both_loops (tg : TimingGraph) (an : HoldTimingAnalyzer)
  (st st' : t) :
  update_slacks_and_criticalities on nl lk tg an st = Ok st' ↔
  ∃ sl cr,
    slack_loop an (pin_slacks_ st) = Ok sl
    ∧ crit_loop tg an (pin_criticalities_ st) = Ok cr
    ∧ st' = {| pin_slacks_ := sl; pin_criticalities_ := cr |}.
Proof.
  unfold update_slacks_and_criticalities. rewrite bind_Ok. split.
  - intros (sa & Hsl & Hcr).
    apply hold_update_slacks_Ok in Hsl as (sl & Hsl & ->).
    apply hold_update_criticalities_Ok in Hcr as (cr & Hcr & ->).
    exists sl, cr. done.
  - intros (sl & cr & Hsl & Hcr & ->). eexists. split.
    + apply hold_update_slacks_Ok. exists sl. split; [done|reflexivity].
    + apply hold_update_criticalities_Ok. exists cr. done.
Qed.

(** X8. Through any sequence of combined hold updates that return,
    starting from the constructed evaluator, both arrays keep one entry
    per pin of the netlist, and [hold_pin_slack] and
    [hold_pin_criticality] return for every pin index below the pin
    count. *)
Theorem hold_arrays_keep_netlist_size (st : t) :
  hold_reachable on nl lk st →
  length (pin_slacks_ st) = length (pins nl)
  ∧ length (pin_criticalities_ st) = length (pins nl)
  ∧ ∀ i, i < length (pins nl) →
      (∃ x, hold_pin_slack st (Some i) = Ok x)
      ∧ (∃ c, hold_pin_criticality st (Some i) = Ok c).
Proof.
  assert (Hget : ∀ s : t,
    length (pin_slacks_ s) = length (pins nl) →
    length (pin_criticalities_ s) = length (pins nl) →
    ∀ i, i < length (pins nl) →
      (∃ x, hold_pin_slack s (Some i) = Ok x)
      ∧ (∃ c, hold_pin_criticality s (Some i) = Ok c)).
  { intros s H1 H2 i Hi. unfold hold_pin_slack, hold_pin_criticality, vec_get.
    destruct (lookup_lt_is_Some_2 (pin_slacks_ s) i) as [x ->]; [lia|].
    destruct (lookup_lt_is_Some_2 (pin_criticalities_ s) i) as [c ->]; [lia|].
    eauto. }
  induction 1 as [|tg an st st' _ IH Hrun].
  - assert (H1 : length (pin_slacks_ (create nl)) = length (pins nl))
      by apply length_replicate.
    assert (H2 : length (pin_criticalities_ (create nl)) = length (pins nl))
      by apply length_replicate.
    do 2 (split; [done|]). by apply Hget.
  - destruct IH as (H1 & H2 & _).
    apply hold_update_both_loops in Hrun as (sl & cr & Hsl & Hcr & ->).
    pose proof (write_loop_length _ _ _ _ _ Hsl) as L1.
    pose proof (write_loop_length _ _ _ _ _ Hcr) as L2.
    split; [simpl; lia|]. split; [simpl; lia|]. apply Hget; simpl; lia.
Qed.

(** X9. The two phases of the combined hold update do not interfere:
    slacks first and criticalities second returns a state exactly when
    criticalities first and slacks second returns it. *)
Theorem hold_phases_commute (tg : TimingGraph) (an : HoldTimingAnalyzer)
  (st st' : t) :
  update_slacks_and_criticalities on nl lk tg an st = Ok st' ↔
  hold_criticalities_then_slacks on nl lk tg an st = Ok st'.
Proof.
  rewrite hold_update_both_loops.
  unfold hold_criticalities_then_slacks. rewrite bind_Ok. split.
  - intros (sl & cr & Hsl & Hcr & ->). eexists. split.
    + apply hold_update_criticalities_Ok. exists cr. split; [done|reflexivity].
    + apply hold_update_slacks_Ok. exists sl. done.
  - intros (sa & Hcr & Hsl).
    apply hold_update_criticalities_Ok in Hcr as (cr & Hcr & ->).
    apply hold_update_slacks_Ok in Hsl as (sl & Hsl & ->).
    exists sl, cr. done.
Qed.

(** X10. A combined hold update is idempotent: called again on the state
    it returned, with the same analyzer and graph, it returns that very
    state. *)
Theorem hold_update_idempotent (tg : TimingGraph) (an : HoldTimingAnalyzer)
  (st st' : t) :
  update_slacks_and_criticalities on nl lk tg an st = Ok st' →
  update_slacks_and_criticalities on nl lk tg an st' = Ok st'.
Proof.
  intros (sl & cr & Hsl & Hcr & ->)%hold_update_both_loops.
  apply hold_update_both_loops. exists sl, cr. simpl.
  split; [by eapply write_loop_idemp|].
  split; [by eapply write_loop_idemp|done].
Qed.

(** X11. The hold update is a full recomputation: when it returns from
    one state it returns from any state whose arrays have the same
    lengths, and then [hold_pin_slack] and [hold_pin_criticality] agree at
    every pin of the netlist, whatever the two states held before; when
    every array index is a pin of the netlist, the two resulting states
    are equal. *)
Theorem hold_update_ignores_previous_values (tg : TimingGraph)
  (an : HoldTimingAnalyzer) (st1 st2 r1 : t) :
  length (pin_slacks_ st2) = length (pin_slacks_ st1) →
  length (pin_criticalities_ st2) = length (pin_criticalities_ st1) →
  update_slacks_and_criticalities on nl lk tg an st1 = Ok r1 →
  ∃ r2,
    update_slacks_and_criticalities on nl lk tg an st2 = Ok r2
    ∧ (∀ pin, pin ∈ pins nl →
         hold_pin_slack r2 pin = hold_pin_slack r1 pin
         ∧ hold_pin_criticality r2 pin = hold_pin_criticality r1 pin)
    ∧ ((∀ i, i < length (pin_slacks_ st1) → Some i ∈ pins nl) →
       (∀ i, i < length (pin_criticalities_ st1) → Some i ∈ pins nl) →
       r2 = r1).
Proof.
  intros L1 L2 (sl & cr & Hsl & Hcr & ->)%hold_update_both_loops.
  destruct (write_loop_agree _ _ _ _ _ _ Hsl L1) as (sl2 & Hsl2 & Ls & Hs).
  destruct (write_loop_agree _ _ _ _ _ _ Hcr L2) as (cr2 & Hcr2 & Lc & Hc).
  exists {| pin_slacks_ := sl2; pin_criticalities_ := cr2 |}.
  split; [|split].
  - apply hold_update_both_loops. exists sl2, cr2. done.
  - intros pin Hpin.
    destruct (write_loop_elem _ _ _ _ _ pin Hsl Hpin) as (i & _ & Hi & _).
    unfold id in Hi. subst pin.
    unfold hold_pin_slack, hold_pin_criticality, vec_get. simpl.
    by rewrite (Hs (Some i) i Hpin eq_refl), (Hc (Some i) i Hpin eq_refl).
  - intros Hall1 Hall2.
    pose proof (write_loop_length _ _ _ _ _ Hsl) as Ls1.
    pose proof (write_loop_length _ _ _ _ _ Hcr) as Lc1.
    f_equal; apply list_eq; intros i.
    + destruct (decide (i < length (pin_slacks_ st1))) as [Hi|Hi].
      * by apply (Hs (Some i) i); [apply Hall1|].
      * rewrite !lookup_ge_None_2; [done|lia..].
    + destruct (decide (i < length (pin_criticalities_ st1))) as [Hi|Hi].
      * by apply (Hc (Some i) i); [apply Hall2|].
      * rewrite !lookup_ge_None_2; [done|lia..].
Qed.

(** *** When the hold update returns *)

Lemma hold_slack_value_Ok (an : HoldTimingAnalyzer) (pin : AtomPinId) :
  (∃ c, hold_slack_value on lk an pin = Ok c) ↔
  (on = true → id_valid (atom_pin_tnode lk pin) = true).
Proof.
  unfold hold_slack_value. split.
  - intros (c & (u & Hchk & _)%bind_Ok).
    exact (proj1 (check_Ok _ _ _) Hchk).
  - intros Hv. eexists.
    rewrite (proj2 (check_Ok on _ tt) Hv). reflexivity.
Qed.

(** X12. The hold slack update returns exactly when every pin of the
    netlist indexes the slack array and, with [VTR_ASSERT] compiled in,
    has a valid timing node. The hold criticality update returns exactly
    when every pin indexes the criticality array and, with [VTR_ASSERT]
    compiled in, has a valid node and a running maximum within [0, 1];
    with the assertions compiled out no value is rejected. *)
Theorem hold_update_returns_iff (tg : TimingGraph) (an : HoldTimingAnalyzer)
  (st : t) :
  ((∃ st', update_slacks on nl lk an st = Ok st') ↔
   ∀ pin, pin ∈ pins nl →
     pin_in_range (length (pin_slacks_ st)) pin
     ∧ (on = true → id_valid (atom_pin_tnode lk pin) = true))
  ∧ ((∃ st', update_criticalities on nl lk tg an st = Ok st') ↔
     ∀ pin, pin ∈ pins nl →
       pin_in_range (length (pin_criticalities_ st)) pin
       ∧ (on = true →
          id_valid (atom_pin_tnode lk pin) = true
          ∧ in_unit_interval
              (max_tag_criticality
                 (calc_scale (scan_slacks tg an).1 (scan_slacks tg an).2)
                 (fopp (scan_slacks tg an).1)
                 (hold_slacks an (atom_pin_tnode lk pin))))).
Proof.
  split; split.
  - intros (st' & (sl & Hsl & _)%hold_update_slacks_Ok) pin Hpin.
    destruct (write_loop_elem _ _ _ _ _ pin Hsl Hpin) as (i & c & Hi & Hlt & Hc).
    split; [by exists i|]. apply (hold_slack_value_Ok an pin). eauto.
  - intros Hall.
    destruct (write_loop_total id (hold_slack_value on lk an) (pins nl)
                (pin_slacks_ st)) as [sl Hsl].
    { intros pin Hpin. destruct (Hall pin Hpin) as ((i & -> & Hi) & Hv).
      destruct (proj2 (hold_slack_value_Ok an (Some i)) Hv) as [c Hc].
      by exists i, c. }
    eexists. apply hold_update_slacks_Ok. eauto.
  - intros (st' & (cr & Hcr & _)%hold_update_criticalities_Ok) pin Hpin.
    destruct (write_loop_elem _ _ _ _ _ pin Hcr Hpin) as (i & c & Hi & Hlt & Hc).
    split; [by exists i|].
    apply hold_calc_pin_criticality_Ok in Hc as [-> Hc].
    intros Hon. destruct (Hc Hon) as (? & ? & ?). done.
  - intros Hall.
    destruct (write_loop_total id
                (fun pin => calc_pin_criticality on lk pin an
                   (calc_scale (scan_slacks tg an).1 (scan_slacks tg an).2)
                   (fopp (scan_slacks tg an).1))
                (pins nl) (pin_criticalities_ st)) as [cr Hcr].
    { intros pin Hpin. destruct (Hall pin Hpin) as ((i & -> & Hi) & Hv).
      eexists i, _. split; [done|]. split; [done|].
      apply hold_calc_pin_criticality_Ok. split; [reflexivity|].
      intros Hon. destruct (Hv Hon) as (? & ? & ?). done. }
    eexists. apply hold_update_criticalities_Ok. eauto.
Qed.

(** *** No spread between the slacks *)

Lemma fold_min_const (x : float) (tags : list TimingTag) (w : float) :
  isfinite x = true → (∀ t, t ∈ tags → time t = x) → tags ≠ [] →
  w = infinity ∨ w = x →
  fold_left (fun w t => std_min w (time t)) tags w = x.
Proof.
  intros Hx. revert w. induction tags as [|t tags IH]; intros w Hall Hne Hw.
  - done.
  - simpl. rewrite (Hall t) by (by left).
    assert (Hstep : std_min w x = x).
    { unfold std_min. destruct Hw as [->| ->].
      - by rewrite (proj1 (flt_finite_infinity x Hx)).
      - by rewrite flt_irrefl. }
    rewrite Hstep. destruct tags as [|t' tags']; [done|].
    apply IH; [|done|by right]. intros t0 Ht0. apply Hall. by right.
Qed.

Lemma fold_max_const (x : float) (tags : list TimingTag) (b : float) :
  isfinite x = true → (∀ t, t ∈ tags → time t = x) → tags ≠ [] →
  b = neg_infinity ∨ b = x →
  fold_left (fun b t => std_max b (time t)) tags b = x.
Proof.
  intros Hx. revert b. induction tags as [|t tags IH]; intros b Hall Hne Hb.
  - done.
  - simpl. rewrite (Hall t) by (by left).
    assert (Hstep : std_max b x = x).
    { unfold std_max. destruct Hb as [->| ->].
      - by rewrite (proj2 (flt_finite_infinity x Hx)).
      - by rewrite flt_irrefl. }
    rewrite Hstep. destruct tags as [|t' tags']; [done|].
    apply IH; [|done|by right]. intros t0 Ht0. apply Hall. by right.
Qed.

Lemma calc_scale_no_spread (x : float) :
  isfinite x = true → calc_scale x x = infinity.
Proof.
  intros Hx. unfold calc_scale. rewrite (fsub_diag x Hx).
  vm_compute. reflexivity.
Qed.

Lemma tag_criticality_no_spread (x : float) :
  isfinite x = true → tag_criticality infinity (fopp x) x = NAN.
Proof.
  intros Hx. unfold tag_criticality. by rewrite (fadd_opp_diag x Hx).
Qed.

(** X13. When every hold-slack tag has the same finite time (there being
    at least one on the graph's nodes), [best_slack - worst_slack] is
    zero, [scale] is [+infinity], every tag's criticality is a NaN, and a
    criticality update that returns stores exactly [0.] for every pin of
    the netlist, the pins that carry the worst slack included. *)
Theorem hold_equal_slacks_give_zero (tg : TimingGraph)
  (an : HoldTimingAnalyzer) (st st' : t) (x : float) :
  isfinite x = true →
  all_hold_tags tg an ≠ [] →
  (∀ n t, t ∈ hold_slacks an n → time t = x) →
  update_criticalities on nl lk tg an st = Ok st' →
  scan_slacks tg an = (x, x)
  ∧ calc_scale x x = infinity
  ∧ (∀ t, t ∈ all_hold_tags tg an →
          tag_criticality infinity (fopp x) (time t) = NAN)
  ∧ ∀ pin, pin ∈ pins nl →
      ∃ i, pin = Some i ∧ pin_criticalities_ st' !! i = Some zero.
Proof.
  intros Hx Hne Hall Hrun.
  assert (Htags : ∀ t, t ∈ all_hold_tags tg an → time t = x).
  { intros t Ht%list_elem_of_In. apply in_flat_map in Ht as (n & _ & Ht).
    apply (Hall n). by apply list_elem_of_In. }
  assert (Hscan : scan_slacks tg an = (x, x)).
  { rewrite scan_slacks_flat, scan_tags_split. simpl.
    rewrite (fold_min_const x), (fold_max_const x); auto. }
  split; [done|]. split; [by apply calc_scale_no_spread|]. split.
  - intros t Ht. rewrite (Htags t Ht). by apply tag_criticality_no_spread.
  - intros pin Hpin.
    destruct (hold_criticality_entry on nl lk tg an st st' pin Hrun Hpin)
      as (i & -> & Hc & _).
    exists i. split; [done|]. rewrite Hc. f_equal.
    rewrite Hscan. simpl. rewrite (calc_scale_no_spread x Hx).
    unfold max_tag_criticality. apply running_max_stays.
    intros t Ht. rewrite (Hall _ t Ht), (tag_criticality_no_spread x Hx).
    apply flt_nan_r.
Qed.

(** *** The most critical pin *)

Lemma tag_criticality_at_shift (scale w : float) :
  isfinite scale = true → isfinite w = true →
  tag_criticality scale (fopp w) w = one.
Proof.
  intros Hs Hw. unfold tag_criticality. rewrite (fadd_opp_diag w Hw).
  destruct (fmul_zero_r scale Hs) as [s ->].
  change (to_double (S754_zero s)) with (S754_zero s).
  rewrite dsub_one_zero. apply to_float_d_one.
Qed.

(** X14. In a hold criticality update that returns with [VTR_ASSERT]
    compiled in, a pin one of whose tags carries the worst slack of the
    graph gets a criticality [==] to [1.0], provided that slack and the
    scale are finite (the scale is, once best and worst slack are apart
    by more than a subnormal amount). *)
Theorem hold_worst_pin_is_fully_critical (tg : TimingGraph)
  (an : HoldTimingAnalyzer) (st st' : t) (pin : AtomPinId) (t : TimingTag) :
  on = true →
  update_criticalities on nl lk tg an st = Ok st' →
  pin ∈ pins nl →
  t ∈ hold_slacks an (atom_pin_tnode lk pin) →
  time t = (scan_slacks tg an).1 →
  isfinite (time t) = true →
  isfinite (calc_scale (scan_slacks tg an).1 (scan_slacks tg an).2) = true →
  ∃ i c, pin = Some i
         ∧ pin_criticalities_ st' !! i = Some c
         ∧ feq c one = true.
Proof.
  intros Hon Hrun Hpin Ht Hworst Hfin Hscale.
  destruct (hold_criticality_entry on nl lk tg an st st' pin Hrun Hpin)
    as (i & -> & Hc & Hrange).
  exists i. eexists. split; [done|]. split; [exact Hc|].
  destruct (Hrange Hon) as [_ Hle].
  apply fle_not_flt_feq; [done|].
  destruct (max_tag_criticality_spec
              (calc_scale (scan_slacks tg an).1 (scan_slacks tg an).2)
              (fopp (scan_slacks tg an).1)
              (hold_slacks an (atom_pin_tnode lk (Some i))))
    as (Hub & _).
  specialize (Hub t Ht). simpl in Hub.
  rewrite Hworst in Hub, Hfin.
  by rewrite tag_criticality_at_shift in Hub.
Qed.

(** *** Reading hold slacks back *)

(** X15. After a hold slack update that returns, [hold_pin_slack] of
    every pin of the netlist returns [+infinity] when the pin's node has no
    hold-slack tag and otherwise the time of one of its tags that none is
    below, however often the pin occurs among the netlist's pins;
    [hold_pin_slack] of an index that is no pin of the netlist returns
    what it did before, and the criticalities are untouched. *)
Theorem hold_slack_read_back (an : HoldTimingAnalyzer) (st st' : t) :
  update_slacks on nl lk an st = Ok st' →
  pin_criticalities_ st' = pin_criticalities_ st
  ∧ (∀ pin, pin ∈ pins nl →
       ∃ s, hold_pin_slack st' pin = Ok s
            ∧ slack_of_tags (hold_slacks an (atom_pin_tnode lk pin)) s)
  ∧ (∀ pin, pin ∉ pins nl → hold_pin_slack st' pin = hold_pin_slack st pin).
Proof.
  intros Hrun.
  pose proof Hrun as (sl & Hloop & Hst)%hold_update_slacks_Ok.
  split; [by rewrite Hst|]. split.
  - intros pin Hpin.
    destruct (hold_slack_entry on nl lk an st st' pin Hrun Hpin)
      as (i & -> & Hs & _).
    eexists. split.
    + unfold hold_pin_slack, vec_get. by rewrite Hs.
    + apply min_time_or_infinity_spec.
  - intros [i|] Hnot; [|done]. subst st'.
    unfold hold_pin_slack, vec_get. simpl.
    rewrite (write_loop_frame _ _ _ _ _ i Hloop); [done|].
    intros pin Hpin Hid. unfold id in Hid. by subst pin.
Qed.

End HoldMore.

(** ** Concrete runs of the further facts *)

Import Example2.

(** Witness of X1. *)
Lemma nodes_to_pins_appends_witness :
  0 < length [p1]
  ∧ nodes_to_pins [n0] lookup2 [p1] !! 0 = [p1] !! 0.
Proof.
  split; [simpl; lia|].
  apply (proj1 (proj2 (proj2 (nodes_to_pins_appends lookup2 [n0] [n1] [p1])))).
  simpl. lia.
Defined.

(** Witness of X2: the state after one update of the two-node design. *)
Lemma setup_arrays_keep_netlist_size_witness :
  ∃ st,
    setup_reachable false netlist2 lookup2 calc_zero st
    ∧ length (SetupSlackCrit.pin_slacks_ st) = length (pins netlist2).
Proof.
  destruct (SetupSlackCrit.update_slacks_and_criticalities false lookup2
              calc_zero graph2 setup2 (SetupSlackCrit.create netlist2))
    as [st'| |] eqn:Hrun; [|vm_compute in Hrun; discriminate..].
  assert (Hreach : setup_reachable false netlist2 lookup2 calc_zero st').
  { eapply setup_reachable_update; [apply setup_reachable_create|exact Hrun]. }
  exists st'. split; [exact Hreach|].
  exact (proj1 (setup_arrays_keep_netlist_size false netlist2 lookup2
                  calc_zero st' Hreach)).
Defined.

(** Witness of X3. *)
Lemma setup_phases_commute_witness :
  ∃ st',
    SetupSlackCrit.update_slacks_and_criticalities false lookup2 calc_zero
      graph2 setup2 (SetupSlackCrit.create netlist2) = Ok st'
    ∧ setup_criticalities_then_slacks false lookup2 calc_zero graph2 setup2
        (SetupSlackCrit.create netlist2) = Ok st'.
Proof.
  destruct (SetupSlackCrit.update_slacks_and_criticalities false lookup2
              calc_zero graph2 setup2 (SetupSlackCrit.create netlist2))
    as [st'| |] eqn:Hrun; [|vm_compute in Hrun; discriminate..].
  exists st'. split; [reflexivity|].
  exact (proj1 (setup_phases_commute false lookup2 calc_zero graph2 setup2
                  (SetupSlackCrit.create netlist2) st') Hrun).
Defined.

(** Witness of X4: a NaN required time at node 0; the second update
    reports the pins of both nodes although only node 0 was modified. *)
Lemma aggregates_with_nan_force_full_pass_witness :
  ∃ s1 s2,
    SetupSlackCrit.update_criticalities false lookup2 calc_zero graph2
      nan_setup (SetupSlackCrit.create netlist2) = Ok s1
    ∧ SetupSlackCrit.update_criticalities false lookup2 calc_zero graph2
        nan_setup s1 = Ok s2
    ∧ SetupSlackCrit.pins_with_modified_criticality s2 = [p0; p1].
Proof.
  destruct (SetupSlackCrit.update_criticalities false lookup2 calc_zero
              graph2 nan_setup (SetupSlackCrit.create netlist2))
    as [s1| |] eqn:H1; [|vm_compute in H1; discriminate..].
  destruct (SetupSlackCrit.update_criticalities false lookup2 calc_zero
              graph2 nan_setup s1)
    as [s2| |] eqn:H2.
  - exists s1, s2. split; [reflexivity|]. split; [exact H2|].
    destruct (SetupSlackCrit.aggregate false graph2 nan_setup)
      as [[mr ws]| |] eqn:Hagg; [|vm_compute in Hagg; discriminate..].
    destruct (aggregates_with_nan_force_full_pass false lookup2 calc_zero
                graph2 nan_setup _ s1 s2 mr ws H1 H2 Hagg)
      as (_ & _ & _ & Hfull).
    rewrite Hfull; [reflexivity|].
    intros [Hnan _]. vm_compute in Hagg. injection Hagg as <- <-.
    specialize (Hnan (clk, clk) NAN eq_refl). discriminate.
  - exfalso. vm_compute in H1. injection H1 as <-.
    vm_compute in H2. discriminate.
  - exfalso. vm_compute in H1. injection H1 as <-.
    vm_compute in H2. discriminate.
Defined.

(** Witness of X5: a modified node without pin, assertions compiled in. *)
Lemma setup_update_slacks_outcome_witness :
  (∃ n, n ∈ modified_nodes unmapped_setup
        ∧ tnode_atom_pin lookup2 n = INVALID)
  ∧ SetupSlackCrit.update_slacks true lookup2 unmapped_setup
      (SetupSlackCrit.create netlist2) = AssertionFailure.
Proof.
  assert (Hex : ∃ n, n ∈ modified_nodes unmapped_setup
                     ∧ tnode_atom_pin lookup2 n = INVALID).
  { exists n5. split; [in_list|reflexivity]. }
  split; [exact Hex|].
  apply (proj2 (setup_update_slacks_outcome lookup2 unmapped_setup
                  (SetupSlackCrit.create netlist2)) Hex).
  intros n Hn%list_elem_of_In. simpl in Hn. destruct Hn as [<-|[]]. by left.
Defined.

(** Witness of X6. *)
Lemma aggregate_entry_depends_on_own_pair_witness :
  ∃ mr ws,
    SetupSlackCrit.aggregate true graph2 setup2 = Ok (mr, ws)
    ∧ mr !! (clk, clk)
      = fold_left SetupSlackCrit.record_max_req
          (tags_of_pair (clk, clk) (required_tags graph2 setup2)) ∅
        !! (clk, clk).
Proof.
  destruct (SetupSlackCrit.aggregate true graph2 setup2)
    as [[mr ws]| |] eqn:Hagg; [|vm_compute in Hagg; discriminate..].
  exists mr, ws. split; [reflexivity|].
  exact (proj1 (aggregate_entry_depends_on_own_pair true graph2 setup2 mr ws
                  (clk, clk) Hagg)).
Defined.

(** Witness of X7. *)
Lemma setup_slack_update_frame_witness :
  ∃ st',
    SetupSlackCrit.update_slacks false lookup2 setup2
      (SetupSlackCrit.create netlist2) = Ok st'
    ∧ SetupSlackCrit.setup_pin_slack st' p1
      = SetupSlackCrit.setup_pin_slack (SetupSlackCrit.create netlist2) p1.
Proof.
  destruct (SetupSlackCrit.update_slacks false lookup2 setup2
              (SetupSlackCrit.create netlist2))
    as [st'| |] eqn:Hrun; [|vm_compute in Hrun; discriminate..].
  exists st'. split; [reflexivity|].
  destruct (setup_slack_update_frame false lookup2 setup2 _ st' Hrun)
    as (_ & _ & _ & _ & Hframe & _).
  apply Hframe. intros Hin%list_elem_of_In. simpl in Hin.
  destruct Hin as [H|[]]. discriminate H.
Defined.

(** Witness of X8. *)
Lemma hold_arrays_keep_netlist_size_witness :
  ∃ st,
    hold_reachable true netlist2 lookup2 st
    ∧ length (HoldSlackCrit.pin_slacks_ st) = length (pins netlist2).
Proof.
  destruct (HoldSlackCrit.update_slacks_and_criticalities true netlist2
              lookup2 graph2 hold2 (HoldSlackCrit.create netlist2))
    as [st'| |] eqn:Hrun; [|vm_compute in Hrun; discriminate..].
  assert (Hreach : hold_reachable true netlist2 lookup2 st').
  { eapply hold_reachable_update; [apply hold_reachable_create|exact Hrun]. }
  exists st'. split; [exact Hreach|].
  exact (proj1 (hold_arrays_keep_netlist_size true netlist2 lookup2 st'
                  Hreach)).
Defined.

(** Witness of X9. *)
Lemma hold_phases_commute_witness :
  ∃ st',
    HoldSlackCrit.update_slacks_and_criticalities true netlist2 lookup2
      graph2 hold2 (HoldSlackCrit.create netlist2) = Ok st'
    ∧ hold_criticalities_then_slacks true netlist2 lookup2 graph2 hold2
        (HoldSlackCrit.create netlist2) = Ok st'.
Proof.
  destruct (HoldSlackCrit.update_slacks_and_criticalities true netlist2
              lookup2 graph2 hold2 (HoldSlackCrit.create netlist2))
    as [st'| |] eqn:Hrun; [|vm_compute in Hrun; discriminate..].
  exists st'. split; [reflexivity|].
  exact (proj1 (hold_phases_commute true netlist2 lookup2 graph2 hold2
                  (HoldSlackCrit.create netlist2) st') Hrun).
Defined.

(** Witness of X10. *)
Lemma hold_update_idempotent_witness :
  ∃ st',
    HoldSlackCrit.update_slacks_and_criticalities true netlist2 lookup2
      graph2 hold2 (HoldSlackCrit.create netlist2) = Ok st'
    ∧ HoldSlackCrit.update_slacks_and_criticalities true netlist2 lookup2
        graph2 hold2 st' = Ok st'.
Proof.
  destruct (HoldSlackCrit.update_slacks_and_criticalities true netlist2
              lookup2 graph2 hold2 (HoldSlackCrit.create netlist2))
    as [st'| |] eqn:Hrun; [|vm_compute in Hrun; discriminate..].
  exists st'. split; [reflexivity|].
  exact (hold_update_idempotent true netlist2 lookup2 graph2 hold2 _ st' Hrun).
Defined.

(** Witness of X11: from the constructed state and from a state holding
    [1.0] everywhere. *)
Lemma hold_update_ignores_previous_values_witness :
  ∃ r1 r2,
    HoldSlackCrit.update_slacks_and_criticalities true netlist2 lookup2
      graph2 hold2 (HoldSlackCrit.create netlist2) = Ok r1
    ∧ HoldSlackCrit.update_slacks_and_criticalities true netlist2 lookup2
        graph2 hold2
        {| HoldSlackCrit.pin_slacks_ := [one; one];
           HoldSlackCrit.pin_criticalities_ := [one; one] |} = Ok r2
    ∧ r2 = r1.
Proof.
  destruct (HoldSlackCrit.update_slacks_and_criticalities true netlist2
              lookup2 graph2 hold2 (HoldSlackCrit.create netlist2))
    as [r1| |] eqn:Hrun; [|vm_compute in Hrun; discriminate..].
  destruct (hold_update_ignores_previous_values true netlist2 lookup2 graph2
              hold2 (HoldSlackCrit.create netlist2)
              {| HoldSlackCrit.pin_slacks_ := [one; one];
                 HoldSlackCrit.pin_criticalities_ := [one; one] |}
              r1 eq_refl eq_refl Hrun) as (r2 & H2 & _ & Heq).
  exists r1, r2. split; [reflexivity|]. split; [exact H2|].
  apply Heq; intros i Hi; simpl in Hi;
    (destruct i as [|[|i]]; [in_list|in_list|lia]).
Defined.

(** Witness of X12. *)
Lemma hold_update_returns_iff_witness :
  (∀ pin, pin ∈ pins netlist2 →
     pin_in_range
       (length (HoldSlackCrit.pin_slacks_ (HoldSlackCrit.create netlist2)))
       pin
     ∧ (true = true → id_valid (atom_pin_tnode lookup2 pin) = true))
  ∧ ∃ st',
      HoldSlackCrit.update_slacks true netlist2 lookup2 hold2
        (HoldSlackCrit.create netlist2) = Ok st'.
Proof.
  assert (Hall : ∀ pin, pin ∈ pins netlist2 →
     pin_in_range
       (length (HoldSlackCrit.pin_slacks_ (HoldSlackCrit.create netlist2)))
       pin
     ∧ (true = true → id_valid (atom_pin_tnode lookup2 pin) = true)).
  { intros pin Hpin%list_elem_of_In. simpl in Hpin.
    destruct Hpin as [<-|[<-|[]]].
    - split; [exists 0; split; [reflexivity|simpl; lia]|reflexivity].
    - split; [exists 1; split; [reflexivity|simpl; lia]|reflexivity]. }
  split; [exact Hall|].
  exact (proj2 (proj1 (hold_update_returns_iff true netlist2 lookup2 graph2
                         hold2 (HoldSlackCrit.create netlist2))) Hall).
Defined.

(** Witness of X13: slack [3.0] at both nodes. *)
Lemma hold_equal_slacks_give_zero_witness :
  ∃ st',
    HoldSlackCrit.update_criticalities true netlist2 lookup2 graph2
      hold_equal (HoldSlackCrit.create netlist2) = Ok st'
    ∧ ∀ pin, pin ∈ pins netlist2 →
        ∃ i, pin = Some i
             ∧ HoldSlackCrit.pin_criticalities_ st' !! i = Some zero.
Proof.
  destruct (HoldSlackCrit.update_criticalities true netlist2 lookup2 graph2
              hold_equal (HoldSlackCrit.create netlist2))
    as [st'| |] eqn:Hrun; [|vm_compute in Hrun; discriminate..].
  exists st'. split; [reflexivity|].
  refine (proj2 (proj2 (proj2
    (hold_equal_slacks_give_zero true netlist2 lookup2 graph2 hold_equal
       _ st' (of_Z 3) eq_refl _ _ Hrun)))).
  - discriminate.
  - intros [[|[|n]]|] t Ht%list_elem_of_In; simpl in Ht;
      try (destruct Ht as [<-|[]]; reflexivity); destruct Ht.
Defined.

(** Witness of X14: pin 0 carries the worst hold slack [-2.0]. *)
Lemma hold_worst_pin_is_fully_critical_witness :
  ∃ st',
    HoldSlackCrit.update_criticalities true netlist2 lookup2 graph2 hold2
      (HoldSlackCrit.create netlist2) = Ok st'
    ∧ ∃ i c, p0 = Some i
             ∧ HoldSlackCrit.pin_criticalities_ st' !! i = Some c
             ∧ feq c one = true.
Proof.
  destruct (HoldSlackCrit.update_criticalities true netlist2 lookup2 graph2
              hold2 (HoldSlackCrit.create netlist2))
    as [st'| |] eqn:Hrun; [|vm_compute in Hrun; discriminate..].
  exists st'. split; [reflexivity|].
  apply (hold_worst_pin_is_fully_critical true netlist2 lookup2 graph2 hold2
           _ st' p0 (tag (of_Z (-2))) eq_refl Hrun).
  - in_list.
  - in_list.
  - vm_compute. reflexivity.
  - reflexivity.
  - vm_compute. reflexivity.
Defined.

(** Witness of X15. *)
Lemma hold_slack_read_back_witness :
  ∃ st',
    HoldSlackCrit.update_slacks true netlist2 lookup2 hold2
      (HoldSlackCrit.create netlist2) = Ok st'
    ∧ ∃ s, HoldSlackCrit.hold_pin_slack st' p1 = Ok s
           ∧ slack_of_tags (hold_slacks hold2 (atom_pin_tnode lookup2 p1)) s.
Proof.
  destruct (HoldSlackCrit.update_slacks true netlist2 lookup2 hold2
              (HoldSlackCrit.create netlist2))
    as [st'| |] eqn:Hrun; [|vm_compute in Hrun; discriminate..].
  exists st'. split; [reflexivity|].
  apply (proj1 (proj2 (hold_slack_read_back true netlist2 lookup2 hold2 _ st'
                         Hrun))).
  in_list.
Defined.

(** Witness of X16. *)
Lemma setup_criticality_update_frame_witness :
  ∃ st',
    SetupSlackCrit.update_criticalities false lookup2 calc_zero graph2
      untimed_setup (SetupSlackCrit.create netlist2) = Ok st'
    ∧ SetupSlackCrit.setup_pin_criticality st' p1
      = SetupSlackCrit.setup_pin_criticality
          (SetupSlackCrit.create netlist2) p1.
Proof.
  destruct (SetupSlackCrit.update_criticalities false lookup2 calc_zero
              graph2 untimed_setup (SetupSlackCrit.create netlist2))
    as [st'| |] eqn:Hrun; [|vm_compute in Hrun; discriminate..].
  exists st'. split; [reflexivity|].
  destruct (setup_criticality_update_frame false lookup2 calc_zero graph2
              untimed_setup _ st' ∅ ∅ Hrun eq_refl) as (_ & _ & Hframe).
  apply Hframe. intros Hin%list_elem_of_In. vm_compute in Hin.
  destruct Hin as [H|[]]. discriminate H.
Defined.

(** Witness of X17: an infinite slack at a logical output. *)
Lemma aggregate_outcome_witness :
  (∃ t, t ∈ output_slack_tags graph2 infinite_slack_setup
        ∧ isfinite (time t) = false)
  ∧ SetupSlackCrit.update_criticalities true lookup2 calc_zero graph2
      infinite_slack_setup (SetupSlackCrit.create netlist2)
    = AssertionFailure.
Proof.
  assert (Hex : ∃ t, t ∈ output_slack_tags graph2 infinite_slack_setup
                     ∧ isfinite (time t) = false).
  { exists (tag infinity). split; [in_list|reflexivity]. }
  split; [exact Hex|].
  exact (proj2 (proj2 (aggregate_outcome true lookup2 calc_zero graph2
                         infinite_slack_setup)) eq_refl Hex
               (SetupSlackCrit.create netlist2)).
Defined.
